(** * Include-expansion preprocessor (src/main.cpp)

    A shallow embedding of [ProcessInclude] and [Preprocess], together with
    the parts of the C++ library they rely on: [std::regex_search] for the two
    directive patterns, [std::getline], the output stream and [std::cout].

    Conventions.
    - [std::string] and [std::filesystem::path] are [string]; the conversions
      between them ([path(match[1].str())], [.string()]) are the identity.
    - [int] line numbers are [Z]; signed overflow is undefined behaviour in
      C++ and is not modelled (a file would need 2^31 lines).
    - The file system read by the expansion is a snapshot that does not change
      while the program runs, and the output file is not one of the files the
      expansion reads.  What the program changes is kept in explicit state:
      the characters written to the output stream and to [std::cout].
    - [ProcessInclude] recurses without bound on cyclic includes, so the
      embedding takes a recursion budget; [None] means the budget ran out. *)

From Stdlib Require Import String Ascii List ZArith Lia Bool.
From Stdlib Require Import DecimalString.
Import ListNotations.
Local Open Scope string_scope.
Local Open Scope Z_scope.

(* ===================================================================== *)
(** ** Characters and strings *)

Definition nl : ascii := "010"%char.
Definition dquote : ascii := "034"%char.

(** [endl] on a stream: one newline character. *)
Definition endl : string := String nl "".

(* ===================================================================== *)
(** ** The directive patterns and [std::regex_search] *)

Module Regex.

(** The fragment of ECMAScript regular expressions that the two patterns
    use: a literal character, a greedy star over a character class, one
    capture group holding a greedy star over a character class, and (for the
    anchored patterns of the specification only) the end of the input. *)
Inductive atom : Type :=
| Chr (c : ascii)
| Star (cls : ascii -> bool)
| Group (cls : ascii -> bool)
| Eol.

Definition regex : Type := list atom.

(** [\s]: space, \t, \n, \v, \f, \r. *)
Definition is_space (c : ascii) : bool :=
  match nat_of_ascii c with
  | 32%nat | 9%nat | 10%nat | 11%nat | 12%nat | 13%nat => true
  | _ => false
  end.

(** A negated one-character class: every character but [d]. *)
Definition not_char (d c : ascii) : bool := negb (Ascii.eqb c d).

Fixpoint lit (s : string) : regex :=
  match s with
  | EmptyString => []
  | String c s' => Chr c :: lit s'
  end.

(** Backtracking match of [r] against a prefix of [s]; alternatives are tried
    in the order of the ECMAScript semantics (a greedy star first takes as
    many characters as it can and gives them back one at a time).  The result
    is the text of capture group 1 in the first successful alternative. *)
Fixpoint rmatch (r : regex) (s : string) (cap : string) {struct r}
  : option string :=
  match r with
  | [] => Some cap
  | Chr c :: r' =>
      match s with
      | String c' s' => if Ascii.eqb c' c then rmatch r' s' cap else None
      | EmptyString => None
      end
  | Star cls :: r' =>
      (fix star (s : string) : option string :=
         match s with
         | String c s' =>
             if cls c then
               match star s' with
               | Some m => Some m
               | None => rmatch r' s cap
               end
             else rmatch r' s cap
         | EmptyString => rmatch r' s cap
         end) s
  | Group cls :: r' =>
      (fix group (s : string) (acc : string) : option string :=
         match s with
         | String c s' =>
             if cls c then
               match group s' (acc ++ String c "") with
               | Some m => Some m
               | None => rmatch r' s acc
               end
             else rmatch r' s acc
         | EmptyString => rmatch r' s acc
         end) s ""
  | Eol :: r' =>
      match s with
      | EmptyString => rmatch r' s cap
      | String _ _ => None
      end
  end.

(** [regex_search(line, match, r)] followed by [match[1].str()]: the match
    may start at any position of the line; the leftmost start wins. *)
Fixpoint regex_search (r : regex) (s : string) : option string :=
  match rmatch r s "" with
  | Some m => Some m
  | None =>
      match s with
      | String _ s' => regex_search r s'
      | EmptyString => None
      end
  end.

(** [regex_match]: the whole line must match, as a pattern anchored at both
    ends asks for. *)
Definition regex_match (r : regex) (s : string) : option string :=
  rmatch (r ++ [Eol])%list s "".

(** The pattern of [include_local] (main.cpp line 49): any white space, a
    hash sign, any white space, the word include, any white space, a double
    quote, group 1 holding any characters but a double quote, a double quote,
    any white space.  The pattern has no anchors. *)
Definition include_local : regex :=
  ([Star is_space; Chr "#"; Star is_space] ++ lit "include" ++
   [Star is_space; Chr dquote; Group (not_char dquote); Chr dquote;
    Star is_space])%list.

(** The pattern of [include_global] (main.cpp line 51): the same with the
    name between angle brackets, group 1 holding any characters but the
    closing bracket. *)
Definition include_global : regex :=
  ([Star is_space; Chr "#"; Star is_space] ++ lit "include" ++
   [Star is_space; Chr "<"; Group (not_char ">"); Chr ">";
    Star is_space])%list.

End Regex.

(** A name between double quotes, as it appears in a source line. *)
Definition quoted (s : string) : string :=
  String dquote (s ++ String dquote "").


(* ===================================================================== *)
(** ** The environment: paths and the file system *)

Definition path : Type := string.

(** What the program asks of [std::filesystem] and of the file streams.  The
    theorems hold for every such environment. *)
Record Platform : Type := {
  (** [p.parent_path()] *)
  parent_path : path -> path;
  (** [a / b] *)
  path_append : path -> path -> path;
  (** [p.filename()] *)
  filename : path -> path;
  (** [filesystem::exists(p)] *)
  fs_exists : path -> bool;
  (** [ifstream input(p)]: [None] when [input.is_open()] is false, otherwise
      the characters of the file. *)
  ifstream_open : path -> option string;
  (** [ofstream output(p)]: whether [output.is_open()]. *)
  ofstream_open : path -> bool
}.

(** [p.empty()] *)
Definition path_empty (p : path) : bool :=
  match p with
  | EmptyString => true
  | String _ _ => false
  end.

(* ===================================================================== *)
(** ** [std::getline] *)

(** Characters up to the next newline, and what follows that newline. *)
Fixpoint read_until_nl (s : string) : string * string :=
  match s with
  | EmptyString => (EmptyString, EmptyString)
  | String c s' =>
      if Ascii.eqb c nl then (EmptyString, s')
      else let (l, r) := read_until_nl s' in (String c l, r)
  end.

(** [getline(input, line)] on the characters left in the stream: it fails
    when nothing is left, otherwise it yields the line without its newline and
    the characters after it. *)
Definition getline (s : string) : option (string * string) :=
  match s with
  | EmptyString => None
  | String _ _ => Some (read_until_nl s)
  end.

(** The lines that [while (getline(input, line))] goes through. *)
Fixpoint split_lines (s : string) : list string :=
  match s with
  | EmptyString => []
  | String c s' =>
      if Ascii.eqb c nl then EmptyString :: split_lines s'
      else
        match split_lines s' with
        | [] => [String c EmptyString]
        | l :: ls => String c l :: ls
        end
  end.

(** Every line followed by one newline. *)
Fixpoint unlines (ls : list string) : string :=
  match ls with
  | [] => EmptyString
  | l :: ls' => l ++ endl ++ unlines ls'
  end.

Fixpoint ends_with_nl (s : string) : bool :=
  match s with
  | EmptyString => false
  | String c EmptyString => Ascii.eqb c nl
  | String _ s' => ends_with_nl s'
  end.

(** A text in which the last line, too, ends with a newline. *)
Definition newline_terminated (s : string) : string :=
  match s with
  | EmptyString => EmptyString
  | String _ _ => if ends_with_nl s then s else s ++ endl
  end.

(* ===================================================================== *)
(** ** The streams the program writes *)

Record streams : Type := {
  (** the characters written to [output] so far *)
  output : string;
  (** the characters written to [std::cout] so far *)
  cout : string
}.

Definition write_output (st : streams) (text : string) : streams :=
  {| output := output st ++ text; cout := cout st |}.

Definition write_cout (st : streams) (text : string) : streams :=
  {| output := output st; cout := cout st ++ text |}.

(** [cout << n] for an [int]. *)
Definition string_of_Z (n : Z) : string :=
  NilZero.string_of_int (Z.to_int n).

(** The text of main.cpp lines 40-42, 83-85 and 114-116. *)
Definition diagnostic (name : string) (file : path) (line : Z) : string :=
  "unknown include file " ++ name ++ " at file " ++ file ++
  " at line " ++ string_of_Z line ++ endl.

(* ===================================================================== *)
(** ** The directive matcher *)

Inductive Directive : Type :=
| Local (name : string)
| Global (name : string)
| PlainText (line : string).

(** The if / else-if / else chain of main.cpp lines 63, 98 and 128: the local
    pattern is tried first. *)
Definition classify (line : string) : Directive :=
  match Regex.regex_search Regex.include_local line with
  | Some m => Local m
  | None =>
      match Regex.regex_search Regex.include_global line with
      | Some m => Global m
      | None => PlainText line
      end
  end.

Definition is_plain (line : string) : bool :=
  match classify line with
  | PlainText _ => true
  | _ => false
  end.

(** The anchored patterns as the specification words them. *)
Definition anchored_local (line : string) : option string :=
  Regex.regex_match Regex.include_local line.

Definition anchored_global (line : string) : option string :=
  Regex.regex_match Regex.include_global line.

(* ===================================================================== *)
(** ** [ProcessInclude] and [Preprocess] *)

(** What a run leaves behind: the output file ([None] when it does not
    exist) and the console. *)
Record world : Type := {
  out_file : option string;
  console : string
}.

Section Expander.

Variable P : Platform.
Variable include_dirs : list path.

Local Notation "a // b" := (path_append P a b) (at level 40, left associativity).

(** The loop over [include_dirs] of lines 73-79 and 104-110: the first
    directory whose candidate exists. *)
Fixpoint search_dirs (dirs : list path) (include_path : path) : option path :=
  match dirs with
  | [] => None
  | dir :: dirs' =>
      let full_path := dir // include_path in
      if fs_exists P full_path then Some full_path
      else search_dirs dirs' include_path
  end.

(** Lines 64-89: the path a local directive resolves to. *)
Definition resolve_local (current_file include_path : path) : option path :=
  let current_dir := parent_path P current_file in
  let full_path := current_dir // include_path in
  if fs_exists P full_path then Some full_path
  else search_dirs include_dirs include_path.

(** Lines 99-119: the path a global directive resolves to. *)
Definition resolve_global (include_path : path) : option path :=
  search_dirs include_dirs include_path.

(** The path resolver over both kinds of directive. *)
Definition resolve (current_file : path) (d : Directive) : option path :=
  match d with
  | Local name => resolve_local current_file name
  | Global name => resolve_global name
  | PlainText _ => None
  end.

Section Loop.

(** The recursive call of [ProcessInclude]:
    arguments [current_file], [source_file], [source_line]. *)
Variable rec : path -> path -> Z -> streams -> option (bool * streams).

(** The body of the [while] loop, lines 58-131.  [line_number] is the value
    of the counter before the line is read. *)
Fixpoint process_lines (current_file : path) (lines : list string)
    (line_number : Z) (st : streams) {struct lines} : option (bool * streams) :=
  match lines with
  | [] => Some (true, st)
  | line :: rest =>
      let line_number := line_number + 1 in
      match classify line with
      | Local include_path =>
          match resolve_local current_file include_path with
          | None =>
              Some (false,
                    write_cout st (diagnostic include_path current_file line_number))
          | Some full_path =>
              match rec full_path current_file line_number st with
              | None => None
              | Some (false, st') => Some (false, st')
              | Some (true, st') => process_lines current_file rest line_number st'
              end
          end
      | Global include_path =>
          match resolve_global include_path with
          | None =>
              Some (false,
                    write_cout st (diagnostic include_path current_file line_number))
          | Some full_path =>
              match rec full_path current_file line_number st with
              | None => None
              | Some (false, st') => Some (false, st')
              | Some (true, st') => process_lines current_file rest line_number st'
              end
          end
      | PlainText _ =>
          process_lines current_file rest line_number
                        (write_output st (line ++ endl))
      end
  end.

End Loop.

(** [ProcessInclude(current_file, output, include_dirs, source_file,
    source_line)], lines 34-134.  [fuel] bounds the depth of the recursion. *)
Fixpoint ProcessInclude (fuel : nat) (current_file source_file : path)
    (source_line : Z) (st : streams) {struct fuel} : option (bool * streams) :=
  match fuel with
  | O => None
  | S fuel' =>
      match ifstream_open P current_file with
      | None =>
          Some (false,
                if path_empty source_file then st
                else write_cout st
                       (diagnostic (filename P current_file) source_file source_line))
      | Some content =>
          process_lines (ProcessInclude fuel') current_file
                        (split_lines content) 0 st
      end
  end.

Definition input_error (input_file : path) : string :=
  "Ошибка: Не удалось открыть входной файл: " ++ input_file ++ endl.

Definition output_error (output_file : path) : string :=
  "Ошибка: Не удалось открыть выходной файл: " ++ output_file ++ endl.

(** [Preprocess(input_file, output_file, include_dirs)], lines 145-163.
    Opening the [ofstream] empties the output file. *)
Definition Preprocess (fuel : nat) (input_file output_file : path) (w : world)
  : option (bool * world) :=
  match ifstream_open P input_file with
  | None =>
      Some (false, {| out_file := out_file w;
                      console := console w ++ input_error input_file |})
  | Some _ =>
      if ofstream_open P output_file then
        match ProcessInclude fuel input_file "" 0
                {| output := ""; cout := console w |} with
        | None => None
        | Some (b, st) =>
            Some (b, {| out_file := Some (output st); console := cout st |})
        end
      else
        Some (false, {| out_file := out_file w;
                        console := console w ++ output_error output_file |})
  end.

End Expander.

(* ===================================================================== *)
(** ** What an expansion is *)

Definition directive_name (d : Directive) : string :=
  match d with
  | Local name => name
  | Global name => name
  | PlainText _ => EmptyString
  end.

Section Splice.

Variable P : Platform.
Variable include_dirs : list path.

(** [Expands f lines o]: the lines [lines] of file [f] expand, all of them,
    to the text [o].  A plain line stands for itself; a directive line stands
    for the whole expansion of the file it resolves to; the pieces follow one
    another in the order of the lines. *)
Inductive Expands : path -> list string -> string -> Prop :=
| Expands_nil f :
    Expands f [] ""
| Expands_plain f l ls o :
    is_plain l = true ->
    Expands f ls o ->
    Expands f (l :: ls) (l ++ endl ++ o)
| Expands_include f l ls p content o1 o2 :
    resolve P include_dirs f (classify l) = Some p ->
    ifstream_open P p = Some content ->
    Expands p (split_lines content) o1 ->
    Expands f ls o2 ->
    Expands f (l :: ls) (o1 ++ o2).

(** [Fails f lines n o name file line]: expanding the lines [lines] of file
    [f], of which [n] lines were read before, runs into a directive that
    cannot be followed.  [o] is the text of everything before that directive
    in expansion order, and the directive sits at line [line] of [file] and
    asks for [name]: it is the innermost one, in the file where the chain of
    includes ends. *)
Inductive Fails : path -> list string -> Z -> string -> string -> path -> Z -> Prop :=
| Fails_unresolved f l ls n :
    is_plain l = false ->
    resolve P include_dirs f (classify l) = None ->
    Fails f (l :: ls) n "" (directive_name (classify l)) f (n + 1)
| Fails_unopenable f l ls n p :
    resolve P include_dirs f (classify l) = Some p ->
    ifstream_open P p = None ->
    Fails f (l :: ls) n "" (filename P p) f (n + 1)
| Fails_nested f l ls n p content o name file line :
    resolve P include_dirs f (classify l) = Some p ->
    ifstream_open P p = Some content ->
    Fails p (split_lines content) 0 o name file line ->
    Fails f (l :: ls) n o name file line
| Fails_after_plain f l ls n o name file line :
    is_plain l = true ->
    Fails f ls (n + 1) o name file line ->
    Fails f (l :: ls) n (l ++ endl ++ o) name file line
| Fails_after_include f l ls n p content o1 o2 name file line :
    resolve P include_dirs f (classify l) = Some p ->
    ifstream_open P p = Some content ->
    Expands p (split_lines content) o1 ->
    Fails f ls (n + 1) o2 name file line ->
    Fails f (l :: ls) n (o1 ++ o2) name file line.

(** What is asked of a call [rec p src ln st] that returns. *)
Definition call_sound
    (rec : path -> path -> Z -> streams -> option (bool * streams)) : Prop :=
  forall p src ln st b st',
    rec p src ln st = Some (b, st') ->
    match ifstream_open P p with
    | None =>
        b = false /\
        st' = (if path_empty src then st
               else write_cout st (diagnostic (filename P p) src ln))
    | Some content =>
        if b then
          exists o, Expands p (split_lines content) o /\ st' = write_output st o
        else
          exists o name file line,
            Fails p (split_lines content) 0 o name file line /\
            output st' = output st ++ o /\
            (ifstream_open P "" = None ->
             cout st' = cout st ++ diagnostic name file line)
    end.

(** The candidates of a directive, in the order in which they are tried. *)
Definition search_candidates (name : string) : list path :=
  map (fun dir => path_append P dir name) include_dirs.

Definition local_candidates (current_file : path) (name : string) : list path :=
  path_append P (parent_path P current_file) name :: search_candidates name.

End Splice.

(* ===================================================================== *)
(** ** Shapes of lines *)

(** Whether the character [h] occurs in [s]. *)
Fixpoint occurs (h : ascii) (s : string) : bool :=
  match s with
  | EmptyString => false
  | String c s' => Ascii.eqb c h || occurs h s'
  end.

(** Whether every character of [s] is in the class [cls]. *)
Fixpoint all_chars (cls : ascii -> bool) (s : string) : bool :=
  match s with
  | EmptyString => true
  | String c s' => cls c && all_chars cls s'
  end.

(** White space only. *)
Definition blank (s : string) : bool := all_chars Regex.is_space s.

(** The two patterns of main.cpp differ in the delimiters only. *)
Definition directive_pattern (op cl : ascii) : Regex.regex :=
  ([Regex.Star Regex.is_space; Regex.Chr "#"; Regex.Star Regex.is_space] ++
   Regex.lit "include" ++
   [Regex.Star Regex.is_space; Regex.Chr op; Regex.Group (Regex.not_char cl);
    Regex.Chr cl; Regex.Star Regex.is_space])%list.

(** [directive_shape op cl l name]: somewhere in the line [l] stands a hash
    sign, the word include and [name] between the delimiters [op] and [cl],
    with white space allowed between them; [name] holds no [cl].  Anything
    may stand before and after. *)
Definition directive_shape (op cl : ascii) (l name : string) : Prop :=
  exists pre ws1 ws2 ws3 tail,
    l = pre ++ ws1 ++ "#" ++ ws2 ++ "include" ++ ws3 ++
        String op (name ++ String cl tail) /\
    blank ws1 = true /\ blank ws2 = true /\ blank ws3 = true /\
    all_chars (Regex.not_char cl) name = true.

(** A text that is empty or ends with a newline. *)
Definition nl_closed (s : string) : bool :=
  match s with
  | EmptyString => true
  | String _ _ => ends_with_nl s
  end.

(* ===================================================================== *)
(** ** A concrete environment: the fixture of [Test()] *)

Module Fixture.

(** Relative paths with single slashes, which is all the fixture uses. *)
Fixpoint split_last (s : string) : option (string * string) :=
  match s with
  | EmptyString => None
  | String c s' =>
      match split_last s' with
      | Some (a, b) => Some (String c a, b)
      | None => if Ascii.eqb c "/" then Some (EmptyString, s') else None
      end
  end.

Definition parent (p : path) : path :=
  match split_last p with
  | Some (a, _) => a
  | None => EmptyString
  end.

Definition base (p : path) : path :=
  match split_last p with
  | Some (_, b) => b
  | None => p
  end.

Fixpoint ends_with_slash (s : string) : bool :=
  match s with
  | EmptyString => false
  | String c EmptyString => Ascii.eqb c "/"
  | String _ s' => ends_with_slash s'
  end.

Definition join (a b : path) : path :=
  match a, b with
  | _, String "/" _ => b
  | EmptyString, _ => b
  | _, _ => if ends_with_slash a then a ++ b else a ++ "/" ++ b
  end.

Fixpoint lookup (files : list (path * string)) (p : path) : option string :=
  match files with
  | [] => None
  | (q, content) :: files' =>
      if String.eqb p q then Some content else lookup files' p
  end.

Definition mem (ps : list path) (p : path) : bool :=
  existsb (String.eqb p) ps.

(** An environment with the given regular files, the given directories and
    the given paths that can be opened for writing. *)
Definition platform (files : list (path * string)) (dirs writable : list path)
  : Platform :=
  {| parent_path := parent;
     path_append := join;
     filename := base;
     fs_exists := fun p =>
       match lookup files p with
       | Some _ => true
       | None => mem dirs p
       end;
     ifstream_open := lookup files;
     ofstream_open := mem writable |}.

Definition include (name : string) : string := "#include " ++ quoted name.

(** The files written by [Test()], lines 190-237. *)
Definition a_cpp : string :=
  unlines ["// this comment before include";
           include "dir1/b.h";
           "// text between b.h and c.h";
           include "dir1/d.h";
           "";
           "int SayHello() {";
           "    cout << " ++ quoted "hello, world!" ++ " << endl;";
           "#   include<dummy.txt>";
           "}"].

Definition b_h : string :=
  "// text from b.h before include" ++ endl ++
  include "subdir/c.h" ++ endl ++
  "// text from b.h after include".

Definition c_h : string :=
  unlines ["// text from c.h before include";
           "#include <std1.h>";
           "// text from c.h after include"].

Definition d_h : string :=
  unlines ["// text from d.h before include";
           include "lib/std2.h";
           "// text from d.h after include"].

Definition files : list (path * string) :=
  [("sources/a.cpp", a_cpp);
   ("sources/dir1/b.h", b_h);
   ("sources/dir1/subdir/c.h", c_h);
   ("sources/dir1/d.h", d_h);
   ("sources/include1/std1.h", unlines ["// std1"]);
   ("sources/include2/lib/std2.h", unlines ["// std2"])].

Definition dirs : list path :=
  ["sources"; "sources/include1"; "sources/include2"; "sources/include2/lib";
   "sources/dir1"; "sources/dir1/subdir"].

Definition test_platform : Platform := platform files dirs ["sources/a.in"].

Definition test_include_dirs : list path :=
  ["sources/include1"; "sources/include2"].

(** The text [Test()] expects in sources/a.in, lines 245-257. *)
Definition test_out : string :=
  unlines ["// this comment before include";
           "// text from b.h before include";
           "// text from c.h before include";
           "// std1";
           "// text from c.h after include";
           "// text from b.h after include";
           "// text between b.h and c.h";
           "// text from d.h before include";
           "// std2";
           "// text from d.h after include";
           "";
           "int SayHello() {";
           "    cout << " ++ quoted "hello, world!" ++ " << endl;"].

Definition fresh : world := {| out_file := None; console := "" |}.

Definition start : streams := {| output := ""; cout := "" |}.

(** A line with text on both sides of a directive. *)
Definition inside_line : string :=
  "int x; #include " ++ quoted "a.h" ++ " // t".

Definition inside_platform : Platform :=
  platform [("m.cpp", unlines ["before"; inside_line; "after"]);
            ("a.h", unlines ["X"])]
           [] ["m.out"].

(** A header next to the including file and, under the same name, in a
    search directory; another one only next to the including file. *)
Definition shadow_platform : Platform :=
  platform [("src/m.cpp", unlines [include "h.h"; "#include <h.h>";
                                   "#include <only.h>"; "tail"]);
            ("src/h.h", unlines ["relative"]);
            ("src/only.h", unlines ["only"]);
            ("inc1/other.h", unlines ["other"]);
            ("inc2/h.h", unlines ["searched"]);
            ("src/plain.txt", "one" ++ endl ++ "two");
            ("src/empty.h", "");
            ("src/e.cpp", unlines ["a"; include "empty.h"; "b"])]
           ["src"; "inc1"; "inc2"] ["out.txt"].

Definition shadow_dirs : list path := ["inc1"; "inc2"].

(** Three levels of includes; the innermost file asks for a header that is
    nowhere. *)
Definition deep_platform : Platform :=
  platform [("p/a.cpp", unlines ["a1"; include "b.h"; "a3"]);
            ("p/b.h", unlines ["b1"; "b2"; "#include <c.h>"; "b4"]);
            ("inc/c.h", unlines [include "nowhere.h"; "c2"])]
           ["p"; "inc"] ["p/a.out"].

End Fixture.

(* ===================================================================== *)
(** ** Streams put one after the other *)

(** What [d] holds, written after what [st] holds. *)
Definition shift (st d : streams) : streams :=
  {| output := output st ++ output d; cout := cout st ++ cout d |}.

(** The result of a call that started on empty streams, replayed on [st]. *)
Definition replay (st : streams) (r : option (bool * streams))
  : option (bool * streams) :=
  match r with
  | None => None
  | Some (b, d) => Some (b, shift st d)
  end.

(* ===================================================================== *)
(** ** Candidates of a directive *)

(** The paths whose existence is tested for a directive, in order. *)
Definition candidates (P : Platform) (include_dirs : list path)
    (current_file : path) (d : Directive) : list path :=
  match d with
  | Local name => local_candidates P include_dirs current_file name
  | Global name => search_candidates P include_dirs name
  | PlainText _ => []
  end.

(* ===================================================================== *)
(** ** Directives that cannot be followed *)

(** The line [l] of [file] is a directive that fails on its own account, and
    [name] is what the diagnostic calls it: the name it asks for when it
    resolves to nothing, the base name of the resolved path when that path
    cannot be opened. *)
Definition failing_directive (P : Platform) (include_dirs : list path)
    (file : path) (l name : string) : Prop :=
  is_plain l = false /\
  ((resolve P include_dirs file (classify l) = None /\
    name = directive_name (classify l)) \/
   (exists p, resolve P include_dirs file (classify l) = Some p /\
              ifstream_open P p = None /\
              name = filename P p)).

(* ===================================================================== *)
(** ** Opening files at depth *)

(** [ProcessInclude] keeps its [ifstream] open while it recurses (line 36),
    so a call nested [depth] levels deep opens its file while [depth]
    streams of the enclosing calls are open, and the open can fail for that
    reason alone, as under a limit on open files.  [ProcessIncludeAt] is
    [ProcessInclude] with the depth passed along and the success of an open
    allowed to depend on it. *)
Section Descriptors.

Variable P : Platform.
Variable include_dirs : list path.

(** Whether a file opens when [depth] enclosing calls hold theirs open. *)
Variable can_open : nat -> path -> bool.

Definition open_at (depth : nat) (p : path) : option string :=
  if can_open depth p then ifstream_open P p else None.

Fixpoint ProcessIncludeAt (fuel depth : nat) (current_file source_file : path)
    (source_line : Z) (st : streams) {struct fuel}
  : option (bool * streams) :=
  match fuel with
  | O => None
  | S fuel' =>
      match open_at depth current_file with
      | None =>
          Some (false,
                if path_empty source_file then st
                else write_cout st
                       (diagnostic (filename P current_file) source_file source_line))
      | Some content =>
          process_lines P include_dirs (ProcessIncludeAt fuel' (S depth))
                        current_file (split_lines content) 0 st
      end
  end.

End Descriptors.

(** [k] copies of a text, one after the other. *)
Fixpoint copies (k : nat) (s : string) : string :=
  match k with
  | O => EmptyString
  | S k' => s ++ copies k' s
  end.

(* ===================================================================== *)
(** ** More sample environments *)

Module Samples.

(** A header that includes itself after one line of text. *)
Definition loop_platform : Platform :=
  Fixture.platform [("loop.h", unlines ["x"; Fixture.include "loop.h"; "y"])]
                   [] ["out.txt"].

Definition in_loop (p : path) : Prop := p = "loop.h".

(** Three streams may be open at a time: opens succeed at depths 0, 1, 2. *)
Definition three_streams (depth : nat) (_ : path) : bool := Nat.leb depth 2.

(** A comment that mentions an include of a header that is nowhere. *)
Definition commented_text : string :=
  unlines ["int f();"; "// " ++ Fixture.include "gone.h"; "int g();"].

Definition commented_platform : Platform :=
  Fixture.platform [("c.cpp", commented_text)] [] ["c.out"].

(** The depth of a file of [Fixture.inside_platform] in its include tree. *)
Definition inside_rank (p : path) : nat :=
  if String.eqb p "m.cpp" then 1%nat else 0%nat.

End Samples.

(* ===================================================================== *)
(** * Properties *)

(** ** The model on the program's own test *)

(** The two assertions of [Test()], and what the run prints. *)
Example Test_passes :
  Preprocess Fixture.test_platform Fixture.test_include_dirs 4
             "sources/a.cpp" "sources/a.in" Fixture.fresh
  = Some (false,
          {| out_file := Some Fixture.test_out;
             console := "unknown include file dummy.txt at file sources/a.cpp at line 8" ++ endl |}).
Proof. vm_compute. reflexivity. Qed.

Example search_local_plain :
  Regex.regex_search Regex.include_local ("#include " ++ quoted "dir1/b.h")
  = Some "dir1/b.h".
Proof. reflexivity. Qed.

Example search_global_spaces :
  Regex.regex_search Regex.include_global "#   include<dummy.txt>"
  = Some "dummy.txt".
Proof. reflexivity. Qed.

Example search_local_on_global :
  Regex.regex_search Regex.include_local "#include <std1.h>" = None.
Proof. reflexivity. Qed.

Example search_inside :
  Regex.regex_search Regex.include_local ("int x; #include " ++ quoted "a.h" ++ " // t")
  = Some "a.h" /\ Regex.regex_match Regex.include_local ("int x; #include " ++ quoted "a.h" ++ " // t") = None
  /\ Regex.regex_match Regex.include_local ("  # include " ++ quoted "a.h" ++ "  ") = Some "a.h".
Proof. repeat split; reflexivity. Qed.

(* ===================================================================== *)
(** ** Strings *)

Lemma append_nil_r (s : string) : s ++ "" = s.
Proof. induction s as [|c s IH]; simpl; [reflexivity | now rewrite IH]. Qed.

Lemma append_assoc (a b c : string) : (a ++ b) ++ c = a ++ (b ++ c).
Proof. induction a as [|x a IH]; simpl; [reflexivity | now rewrite IH]. Qed.

Lemma write_output_nil (st : streams) : write_output st "" = st.
Proof. destruct st; unfold write_output; simpl. now rewrite append_nil_r. Qed.

Lemma write_output_app (st : streams) (a b : string) :
  write_output (write_output st a) b = write_output st (a ++ b).
Proof. unfold write_output; simpl. now rewrite append_assoc. Qed.

(* ===================================================================== *)
(** ** Lines *)

(** [split_lines] is the sequence of lines that repeated calls of [getline]
    deliver. *)
Lemma getline_split_lines (s : string) :
  match getline s with
  | None => split_lines s = []
  | Some (l, r) => split_lines s = l :: split_lines r
  end.
Proof.
  destruct s as [|c s]; [reflexivity|].
  unfold getline. revert c.
  induction s as [|d s IH]; intros c.
  - simpl. destruct (Ascii.eqb c nl); reflexivity.
  - specialize (IH d).
    change (split_lines (String c (String d s)))
      with (if Ascii.eqb c nl then EmptyString :: split_lines (String d s)
            else match split_lines (String d s) with
                 | [] => [String c EmptyString]
                 | l :: ls => String c l :: ls
                 end).
    change (read_until_nl (String c (String d s)))
      with (if Ascii.eqb c nl then (EmptyString, String d s)
            else let (l, r) := read_until_nl (String d s) in (String c l, r)).
    destruct (Ascii.eqb c nl); [reflexivity|].
    destruct (read_until_nl (String d s)) as [l r].
    rewrite IH. reflexivity.
Qed.

Lemma split_lines_nil (s : string) : split_lines s = [] -> s = "".
Proof.
  destruct s as [|c s]; [reflexivity|]. simpl.
  destruct (Ascii.eqb c nl); [discriminate|].
  destruct (split_lines s); discriminate.
Qed.

(** Writing every line back with one newline gives the text itself, with a
    newline added when the last line had none. *)
Lemma unlines_split_lines (s : string) :
  unlines (split_lines s) = newline_terminated s.
Proof.
  induction s as [|c s IH]; [reflexivity|].
  unfold newline_terminated in *.
  change (ends_with_nl (String c s))
    with (match s with
          | EmptyString => Ascii.eqb c nl
          | String _ _ => ends_with_nl s
          end).
  simpl split_lines.
  destruct (Ascii.eqb c nl) eqn:Ec.
  - apply Ascii.eqb_eq in Ec. subst c.
    simpl. rewrite IH. destruct s as [|d s]; [reflexivity|].
    destruct (ends_with_nl (String d s)); reflexivity.
  - destruct (split_lines s) as [|l ls] eqn:Es.
    + apply split_lines_nil in Es. subst s. reflexivity.
    + simpl in *. rewrite IH.
      destruct s as [|d s]; [discriminate|].
      destruct (ends_with_nl (String d s)); reflexivity.
Qed.

(** No line delivered by [getline] contains a newline. *)
Lemma split_lines_no_nl (s : string) :
  Forall (fun l => forall a b, l <> a ++ String nl b) (split_lines s).
Proof.
  induction s as [|c s IH]; [constructor|].
  simpl. destruct (Ascii.eqb c nl) eqn:Ec.
  - constructor; [|exact IH].
    intros [|x a] b; discriminate.
  - destruct (split_lines s) as [|l ls].
    + constructor; [|constructor].
      intros [|x a] b H; simpl in H; injection H as H1 H2.
      * subst c. now rewrite Ascii.eqb_refl in Ec.
      * destruct a; discriminate.
    + inversion IH as [|? ? Hl Hls]; subst.
      constructor; [|exact Hls].
      intros [|x a] b H; simpl in H; injection H as H1 H2.
      * subst c. now rewrite Ascii.eqb_refl in Ec.
      * now apply (Hl a b).
Qed.

(* ===================================================================== *)
(** ** The directive matcher *)

Lemma classify_plain (l x : string) : classify l = PlainText x -> x = l.
Proof.
  unfold classify.
  destruct (Regex.regex_search Regex.include_local l); [discriminate|].
  destruct (Regex.regex_search Regex.include_global l); [discriminate|].
  now intros [= ->].
Qed.

Lemma is_plain_true (l : string) : is_plain l = true <-> classify l = PlainText l.
Proof.
  unfold is_plain. split.
  - destruct (classify l) eqn:E; try discriminate.
    now rewrite (classify_plain _ _ E).
  - now intros ->.
Qed.

(** A match of a pattern followed by more atoms is, cut short, a match of
    the pattern itself. *)
Lemma rmatch_app_some (r r2 : Regex.regex) :
  forall s cap m,
    Regex.rmatch (r ++ r2)%list s cap = Some m ->
    exists m', Regex.rmatch r s cap = Some m'.
Proof.
  induction r as [|a r IH]; intros s cap m H.
  - now exists cap.
  - destruct a as [c|cls|cls|]; simpl in *.
    + destruct s as [|c' s]; [discriminate|].
      destruct (Ascii.eqb c' c); [eauto | discriminate].
    + revert m H. induction s as [|c s IHs]; intros m H; [eauto|].
      destruct (cls c); [|eauto].
      match type of H with
      | match ?F with _ => _ end = _ => destruct F as [x|] eqn:EF
      end.
      * destruct (IHs _ eq_refl) as [m' ->]. eauto.
      * destruct (IH _ _ _ H) as [m' Hm'].
        match goal with
        | |- exists _, match ?G with _ => _ end = _ => destruct G
        end; eauto.
    + assert (G : forall s acc m,
        (fix group (s acc : string) : option string :=
           match s with
           | String c s' =>
               if cls c then
                 match group s' (acc ++ String c "") with
                 | Some m => Some m
                 | None => Regex.rmatch (r ++ r2)%list s acc
                 end
               else Regex.rmatch (r ++ r2)%list s acc
           | EmptyString => Regex.rmatch (r ++ r2)%list s acc
           end) s acc = Some m ->
        exists m',
          (fix group (s acc : string) : option string :=
             match s with
             | String c s' =>
                 if cls c then
                   match group s' (acc ++ String c "") with
                   | Some m => Some m
                   | None => Regex.rmatch r s acc
                   end
                 else Regex.rmatch r s acc
             | EmptyString => Regex.rmatch r s acc
             end) s acc = Some m').
      { clear s m H. induction s as [|c s IHs]; intros acc m H; [eauto|].
        destruct (cls c); [|eauto].
        match type of H with
        | match ?F with _ => _ end = _ => destruct F as [x|] eqn:EF
        end.
        - destruct (IHs _ _ EF) as [m' ->]. eauto.
        - destruct (IH _ _ _ H) as [m' Hm'].
          match goal with
          | |- exists _, match ?G with _ => _ end = _ => destruct G
          end; eauto. }
      exact (G _ _ _ H).
    + destruct s; [eauto | discriminate].
Qed.

Lemma regex_match_search (r : Regex.regex) (s m : string) :
  Regex.regex_match r s = Some m ->
  exists m', Regex.regex_search r s = Some m'.
Proof.
  unfold Regex.regex_match. intros H.
  destruct (rmatch_app_some _ _ _ _ _ H) as [m' Hm'].
  exists m'. destruct s; simpl; now rewrite Hm'.
Qed.

(** The matcher of the program accepts at least the lines that match one of
    the anchored patterns as a whole. *)
Lemma anchored_is_directive (l m : string) :
  anchored_local l = Some m \/ anchored_global l = Some m ->
  is_plain l = false.
Proof.
  unfold anchored_local, anchored_global, is_plain, classify.
  intros [H|H]; apply regex_match_search in H; destruct H as [m' H].
  - now rewrite H.
  - destruct (Regex.regex_search Regex.include_local l); [reflexivity|].
    now rewrite H.
Qed.

(* ===================================================================== *)
(** ** One turn of the loop *)

Section LoopEquations.

Variable P : Platform.
Variable include_dirs : list path.
Variable rec : path -> path -> Z -> streams -> option (bool * streams).

(** A plain line: lines 128-130. *)
Lemma process_lines_plain_line f l ls n st :
  is_plain l = true ->
  process_lines P include_dirs rec f (l :: ls) n st
  = process_lines P include_dirs rec f ls (n + 1) (write_output st (l ++ endl)).
Proof.
  intros H. apply is_plain_true in H. simpl. now rewrite H.
Qed.

(** A directive line, of either kind: lines 63-126. *)
Lemma process_lines_directive_line f l ls n st :
  is_plain l = false ->
  process_lines P include_dirs rec f (l :: ls) n st
  = match resolve P include_dirs f (classify l) with
    | None =>
        Some (false,
              write_cout st (diagnostic (directive_name (classify l)) f (n + 1)))
    | Some full_path =>
        match rec full_path f (n + 1) st with
        | None => None
        | Some (false, st') => Some (false, st')
        | Some (true, st') => process_lines P include_dirs rec f ls (n + 1) st'
        end
    end.
Proof.
  unfold is_plain. simpl.
  destruct (classify l); [reflexivity | reflexivity | discriminate].
Qed.

Lemma resolve_some_directive f l p :
  resolve P include_dirs f (classify l) = Some p -> is_plain l = false.
Proof.
  unfold is_plain. destruct (classify l); [reflexivity | reflexivity | discriminate].
Qed.

End LoopEquations.

(** One level of the recursion: lines 36-45, then the loop. *)
Lemma ProcessInclude_S (P : Platform) (include_dirs : list path)
    (fuel : nat) (f src : path) (ln : Z) (st : streams) :
  ProcessInclude P include_dirs (S fuel) f src ln st
  = match ifstream_open P f with
    | None =>
        Some (false,
              if path_empty src then st
              else write_cout st (diagnostic (filename P f) src ln))
    | Some content =>
        process_lines P include_dirs (ProcessInclude P include_dirs fuel) f
                      (split_lines content) 0 st
    end.
Proof. reflexivity. Qed.

(* ===================================================================== *)
(** ** The expander against its big-step description *)

Section Soundness.

Variable P : Platform.
Variable include_dirs : list path.

Local Abbreviation Expands := (Expands P include_dirs).
Local Abbreviation Fails := (Fails P include_dirs).
Local Abbreviation process_lines := (process_lines P include_dirs).
Local Abbreviation ProcessInclude := (ProcessInclude P include_dirs).
Local Abbreviation call_sound := (call_sound P include_dirs).

Lemma process_lines_sound rec (Hrec : call_sound rec) :
  forall lines f n st b st',
    process_lines rec f lines n st = Some (b, st') ->
    if b then
      exists o, Expands f lines o /\ st' = write_output st o
    else
      exists o name file line,
        Fails f lines n o name file line /\
        output st' = output st ++ o /\
        (ifstream_open P "" = None -> path_empty f = false ->
         cout st' = cout st ++ diagnostic name file line).
Proof.
  induction lines as [|l ls IH]; intros f n st b st' H.
  - simpl in H. injection H as <- <-.
    exists "". split; [constructor | now rewrite write_output_nil].
  - destruct (is_plain l) eqn:Hpl.
    + (* a plain line is copied, then the rest *)
      rewrite process_lines_plain_line in H by exact Hpl.
      specialize (IH _ _ _ _ _ H).
      destruct b.
      * destruct IH as (o & Ho & ->).
        exists (l ++ endl ++ o). split; [now constructor|].
        rewrite write_output_app. now rewrite append_assoc.
      * destruct IH as (o & name & file & line & HF & Hout & Hcout).
        exists (l ++ endl ++ o), name, file, line. split; [|split].
        -- now apply Fails_after_plain.
        -- rewrite Hout. simpl. now rewrite !append_assoc.
        -- exact Hcout.
    + rewrite process_lines_directive_line in H by exact Hpl.
      destruct (resolve P include_dirs f (classify l)) as [p|] eqn:Hres.
      * destruct (rec p f (n + 1) st) as [[[|] st1]|] eqn:Hcall;
          [| |discriminate].
        -- (* the included file expanded; go on with the next line *)
           pose proof (Hrec _ _ _ _ _ _ Hcall) as Hp.
           destruct (ifstream_open P p) as [content|] eqn:Hopen;
             [|now destruct Hp].
           destruct Hp as (o1 & Ho1 & ->).
           specialize (IH _ _ _ _ _ H).
           destruct b.
           ++ destruct IH as (o2 & Ho2 & ->).
              exists (o1 ++ o2). split; [econstructor; eassumption|].
              now rewrite write_output_app.
           ++ destruct IH as (o2 & name & file & line & HF & Hout & Hcout).
              exists (o1 ++ o2), name, file, line. split; [|split].
              ** eapply Fails_after_include; eassumption.
              ** rewrite Hout. simpl. now rewrite append_assoc.
              ** exact Hcout.
        -- (* the included file failed: this file fails with it *)
           injection H as <- <-.
           pose proof (Hrec _ _ _ _ _ _ Hcall) as Hp.
           destruct (ifstream_open P p) as [content|] eqn:Hopen.
           ++ destruct Hp as (o & name & file & line & HF & Hout & Hcout).
              exists o, name, file, line. split; [|split].
              ** eapply Fails_nested; eassumption.
              ** exact Hout.
              ** intros He _. now apply Hcout.
           ++ destruct Hp as [_ ->].
              exists "", (filename P p), f, (n + 1). split; [|split].
              ** now apply Fails_unopenable.
              ** destruct (path_empty f); simpl; now rewrite append_nil_r.
              ** intros _ ->. reflexivity.
      * injection H as <- <-.
        exists "", (directive_name (classify l)), f, (n + 1).
        split; [|split].
        -- now apply Fails_unresolved.
        -- simpl. now rewrite append_nil_r.
        -- reflexivity.
Qed.

Lemma open_nonempty (f : path) (content : string) :
  ifstream_open P "" = None -> ifstream_open P f = Some content ->
  path_empty f = false.
Proof.
  intros He Hf. destruct f; [congruence | reflexivity].
Qed.

Lemma ProcessInclude_sound (fuel : nat) : call_sound (ProcessInclude fuel).
Proof.
  induction fuel as [|fuel IH]; intros p src ln st b st' H; [discriminate|].
  rewrite ProcessInclude_S in H.
  destruct (ifstream_open P p) as [content|] eqn:Hopen.
  - apply (process_lines_sound _ IH) in H.
    destruct b; [exact H|].
    destruct H as (o & name & file & line & HF & Hout & Hcout).
    exists o, name, file, line. repeat split; try assumption.
    intros He. apply Hcout; [exact He|].
    now apply (open_nonempty _ content).
  - now injection H as <- <-.
Qed.

(** The other direction: whatever the description derives, the program
    computes, given a recursion budget as deep as the derivation. *)
Lemma Expands_complete f lines o :
  Expands f lines o ->
  exists k, forall fuel, (k <= fuel)%nat -> forall n st,
    process_lines (ProcessInclude fuel) f lines n st
    = Some (true, write_output st o).
Proof.
  induction 1 as [f | f l ls o Hpl _ [k IH]
                  | f l ls p content o1 o2 Hres Hopen _ [k1 IH1] _ [k2 IH2]].
  - exists 0%nat. intros fuel _ n st. simpl. now rewrite write_output_nil.
  - exists k. intros fuel Hk n st.
    rewrite process_lines_plain_line by exact Hpl.
    rewrite IH by exact Hk.
    rewrite write_output_app. now rewrite append_assoc.
  - exists (Nat.max (S k1) k2). intros fuel Hk n st.
    rewrite process_lines_directive_line
      by (eapply resolve_some_directive; eassumption).
    rewrite Hres.
    destruct fuel as [|fuel]; [lia|].
    rewrite ProcessInclude_S, Hopen.
    rewrite IH1 by lia.
    change (process_lines (ProcessInclude (S fuel)) f ls (n + 1)
              (write_output st o1) = Some (true, write_output st (o1 ++ o2))).
    rewrite IH2 by lia.
    now rewrite write_output_app.
Qed.

Lemma Fails_complete f lines n o name file line :
  Fails f lines n o name file line ->
  ifstream_open P "" = None ->
  path_empty f = false ->
  exists k, forall fuel, (k <= fuel)%nat -> forall st,
    process_lines (ProcessInclude fuel) f lines n st
    = Some (false, {| output := output st ++ o;
                      cout := cout st ++ diagnostic name file line |}).
Proof.
  intros HF He. induction HF as
    [ f l ls n Hpl Hres
    | f l ls n p Hres Hopen
    | f l ls n p content o name file line Hres Hopen _ IH
    | f l ls n o name file line Hpl _ IH
    | f l ls n p content o1 o2 name file line Hres Hopen Hexp _ IH ];
    intros Hf.
  - exists 0%nat. intros fuel _ st.
    rewrite process_lines_directive_line by exact Hpl.
    rewrite Hres. unfold write_cout. now rewrite append_nil_r.
  - exists 1%nat. intros fuel Hk st.
    rewrite process_lines_directive_line
      by (eapply resolve_some_directive; eassumption).
    rewrite Hres.
    destruct fuel as [|fuel]; [lia|].
    rewrite ProcessInclude_S, Hopen, Hf.
    unfold write_cout. now rewrite append_nil_r.
  - destruct (IH (open_nonempty _ _ He Hopen)) as [k Hk1].
    exists (S k). intros fuel Hk st.
    rewrite process_lines_directive_line
      by (eapply resolve_some_directive; eassumption).
    rewrite Hres.
    destruct fuel as [|fuel]; [lia|].
    rewrite ProcessInclude_S, Hopen.
    rewrite Hk1 by lia. reflexivity.
  - destruct (IH Hf) as [k Hk1].
    exists k. intros fuel Hk st.
    rewrite process_lines_plain_line by exact Hpl.
    rewrite Hk1 by exact Hk. simpl. now rewrite !append_assoc.
  - destruct (IH Hf) as [k2 Hk2].
    destruct (Expands_complete _ _ _ Hexp) as [k1 Hk1].
    exists (Nat.max (S k1) k2). intros fuel Hk st.
    rewrite process_lines_directive_line
      by (eapply resolve_some_directive; eassumption).
    rewrite Hres.
    destruct fuel as [|fuel]; [lia|].
    rewrite ProcessInclude_S, Hopen.
    rewrite Hk1 by lia.
    change (process_lines (ProcessInclude (S fuel)) f ls (n + 1)
              (write_output st o1)
            = Some (false, {| output := output st ++ o1 ++ o2;
                              cout := cout st ++ diagnostic name file line |})).
    rewrite Hk2 by lia. simpl. now rewrite append_assoc.
Qed.

End Soundness.

(** The description is a function: the lines of a file have one expansion. *)
Lemma Expands_functional (P : Platform) (include_dirs : list path)
    (f : path) (lines : list string) (o1 o2 : string) :
  Expands P include_dirs f lines o1 ->
  Expands P include_dirs f lines o2 ->
  o1 = o2.
Proof.
  intros H1 H2.
  destruct (Expands_complete _ _ _ _ _ H1) as [k1 E1].
  destruct (Expands_complete _ _ _ _ _ H2) as [k2 E2].
  specialize (E1 (Nat.max k1 k2) ltac:(lia) 0 {| output := ""; cout := "" |}).
  specialize (E2 (Nat.max k1 k2) ltac:(lia) 0 {| output := ""; cout := "" |}).
  rewrite E1 in E2. now injection E2.
Qed.

(** A failure of the included file is handed on as it is: the state the
    callee returned is the state this call returns, whatever lines follow. *)
Lemma process_lines_propagates (P : Platform) (include_dirs : list path)
    rec f l ls n st p st1 :
  resolve P include_dirs f (classify l) = Some p ->
  rec p f (n + 1) st = Some (false, st1) ->
  process_lines P include_dirs rec f (l :: ls) n st = Some (false, st1).
Proof.
  intros Hres Hcall.
  rewrite process_lines_directive_line
    by (eapply resolve_some_directive; eassumption).
  now rewrite Hres, Hcall.
Qed.

(** A directive that resolves to nothing ends the loop with one diagnostic,
    whatever lines follow. *)
Lemma process_lines_unresolved (P : Platform) (include_dirs : list path)
    rec f l ls n st :
  is_plain l = false ->
  resolve P include_dirs f (classify l) = None ->
  process_lines P include_dirs rec f (l :: ls) n st
  = Some (false,
          write_cout st (diagnostic (directive_name (classify l)) f (n + 1))).
Proof.
  intros Hpl Hres.
  rewrite process_lines_directive_line by exact Hpl.
  now rewrite Hres.
Qed.

(** Lines without directives are copied one after the other. *)
Lemma process_lines_all_plain (P : Platform) (include_dirs : list path)
    rec f lines :
  Forall (fun l => is_plain l = true) lines ->
  forall n st,
    process_lines P include_dirs rec f lines n st
    = Some (true, write_output st (unlines lines)).
Proof.
  induction 1 as [|l ls Hl _ IH]; intros n st.
  - simpl. now rewrite write_output_nil.
  - rewrite process_lines_plain_line by exact Hl.
    rewrite IH, write_output_app. simpl unlines.
    now rewrite append_assoc.
Qed.

(** The search over the directories is [find] over the candidates. *)
Lemma search_dirs_find (P : Platform) (dirs : list path) (name : string) :
  search_dirs P dirs name
  = find (fs_exists P) (map (fun dir => path_append P dir name) dirs).
Proof.
  induction dirs as [|d ds IH]; simpl; [reflexivity|].
  destruct (fs_exists P (path_append P d name)); [reflexivity | exact IH].
Qed.

Lemma search_dirs_none (P : Platform) (dirs : list path) (name : string) :
  (forall d, In d dirs -> fs_exists P (path_append P d name) = false) ->
  search_dirs P dirs name = None.
Proof.
  induction dirs as [|d ds IH]; simpl; intros H; [reflexivity|].
  rewrite (H d) by now left. apply IH. intros d' Hd'. apply H. now right.
Qed.

(* ===================================================================== *)
(** * The claims *)

(** C1 (the code departs from the claim).  A line is taken for a directive as
    soon as some part of it matches the pattern: here text stands before the
    hash sign and after the closing quote, the line does not match either
    anchored pattern, and yet it is classified [Local] and replaced by the
    included file instead of being copied. *)
Theorem C1_directive_inside_line :
  anchored_local Fixture.inside_line = None /\
  anchored_global Fixture.inside_line = None /\
  classify Fixture.inside_line = Local "a.h" /\
  Preprocess Fixture.inside_platform [] 2 "m.cpp" "m.out" Fixture.fresh
  = Some (true, {| out_file := Some (unlines ["before"; "X"; "after"]);
                   console := "" |}).
Proof. repeat split; vm_compute; reflexivity. Qed.

(** C8.  A call on a file that cannot be opened returns failure and leaves
    the output alone; it prints the diagnostic, with the file's base name and
    the referencing file and line, exactly when the referencing file is not
    empty, and prints nothing for the top-level call, whose referencing file
    is empty. *)
Theorem C8_unopenable_file (P : Platform) (include_dirs : list path)
    (fuel : nat) (file src : path) (ln : Z) (st : streams) :
  ifstream_open P file = None ->
  exists st',
    ProcessInclude P include_dirs (S fuel) file src ln st = Some (false, st') /\
    output st' = output st /\
    (src = "" -> cout st' = cout st) /\
    (src <> "" ->
     cout st' = cout st ++
       "unknown include file " ++ filename P file ++ " at file " ++ src ++
       " at line " ++ string_of_Z ln ++ endl).
Proof.
  intros Hopen. rewrite ProcessInclude_S, Hopen.
  eexists. split; [reflexivity|].
  destruct src as [|c src]; simpl.
  - split; [reflexivity|]. split; [reflexivity | congruence].
  - split; [reflexivity|]. split; [discriminate | reflexivity].
Qed.

Lemma C8_unopenable_file_witness :
  ifstream_open Fixture.test_platform "sources/dir1/gone.h" = None /\
  exists st',
    ProcessInclude Fixture.test_platform Fixture.test_include_dirs 1
      "sources/dir1/gone.h" "sources/a.cpp" 2 Fixture.start = Some (false, st') /\
    output st' = output Fixture.start /\
    ("sources/a.cpp" = "" -> cout st' = cout Fixture.start) /\
    ("sources/a.cpp" <> "" ->
     cout st' = cout Fixture.start ++
       "unknown include file " ++ filename Fixture.test_platform "sources/dir1/gone.h" ++
       " at file " ++ "sources/a.cpp" ++
       " at line " ++ string_of_Z 2 ++ endl).
Proof.
  split; [reflexivity|].
  apply (C8_unopenable_file Fixture.test_platform Fixture.test_include_dirs 0
           "sources/dir1/gone.h" "sources/a.cpp" 2 Fixture.start).
  reflexivity.
Defined.

(** C10.  A file that opens and holds no line expands successfully and
    changes neither stream; a directive that resolves to such a file adds
    nothing and the loop goes on with the line after it. *)
Theorem C10_empty_file (P : Platform) (include_dirs : list path)
    (fuel : nat) (file : path) :
  ifstream_open P file = Some "" ->
  (forall src ln st,
     ProcessInclude P include_dirs (S fuel) file src ln st = Some (true, st)) /\
  (forall cur l ls n st,
     resolve P include_dirs cur (classify l) = Some file ->
     process_lines P include_dirs (ProcessInclude P include_dirs (S fuel))
                   cur (l :: ls) n st
     = process_lines P include_dirs (ProcessInclude P include_dirs (S fuel))
                     cur ls (n + 1) st).
Proof.
  intros Hopen.
  assert (Hrun : forall src ln st,
             ProcessInclude P include_dirs (S fuel) file src ln st
             = Some (true, st)).
  { intros src ln st. now rewrite ProcessInclude_S, Hopen. }
  split; [exact Hrun|].
  intros cur l ls n st Hres.
  rewrite process_lines_directive_line
    by (eapply resolve_some_directive; eassumption).
  now rewrite Hres, Hrun.
Qed.

Lemma C10_empty_file_witness :
  ifstream_open Fixture.shadow_platform "src/empty.h" = Some "" /\
  Preprocess Fixture.shadow_platform Fixture.shadow_dirs 2
             "src/e.cpp" "out.txt" Fixture.fresh
  = Some (true, {| out_file := Some (unlines ["a"; "b"]); console := "" |}) /\
  (forall src ln st,
     ProcessInclude Fixture.shadow_platform Fixture.shadow_dirs 1
                    "src/empty.h" src ln st = Some (true, st)).
Proof.
  split; [reflexivity|]. split; [vm_compute; reflexivity|].
  apply (C10_empty_file Fixture.shadow_platform Fixture.shadow_dirs 0
           "src/empty.h").
  reflexivity.
Defined.

(** What does hold for lines that the matcher of the program itself takes
    for plain text ([is_plain], a search anywhere in the line), and under
    the convention of this file that the output file is none of the files
    read: the run succeeds, prints nothing, and writes every line followed
    by one newline. *)
Lemma Preprocess_plain_lines (P : Platform) (include_dirs : list path)
    (fuel : nat) (input_file output_file : path) (content : string)
    (w : world) :
  ifstream_open P input_file = Some content ->
  ofstream_open P output_file = true ->
  Forall (fun l => is_plain l = true) (split_lines content) ->
  Preprocess P include_dirs (S fuel) input_file output_file w
  = Some (true, {| out_file := Some (unlines (split_lines content));
                   console := console w |}) /\
  unlines (split_lines content) = newline_terminated content.
Proof.
  intros Hin Hout Hplain. split; [|apply unlines_split_lines].
  unfold Preprocess. rewrite Hin, Hout, ProcessInclude_S, Hin.
  rewrite process_lines_all_plain by exact Hplain.
  reflexivity.
Qed.

(** C9 (the code departs from the claim).  Two inputs none of whose lines
    matches an anchored directive pattern, so that neither holds a directive
    line.  In the first a line has text around an include of an existing
    header: the run succeeds, but the output holds the text of the header in
    place of that line and is not the input.  In the second a comment
    mentions an include of a header that is nowhere: the run fails at that
    line with a diagnostic, and the output stops before it.  Both come from
    the search inside the line that C1 shows. *)
Theorem C9_identity_broken_inside_line :
  (Forall (fun l => anchored_local l = None /\ anchored_global l = None)
          (split_lines (unlines ["before"; Fixture.inside_line; "after"])) /\
   ifstream_open Fixture.inside_platform "m.cpp"
   = Some (unlines ["before"; Fixture.inside_line; "after"]) /\
   ofstream_open Fixture.inside_platform "m.out" = true /\
   Preprocess Fixture.inside_platform [] 2 "m.cpp" "m.out" Fixture.fresh
   = Some (true, {| out_file := Some (unlines ["before"; "X"; "after"]);
                    console := "" |}) /\
   unlines ["before"; "X"; "after"]
   <> unlines (split_lines (unlines ["before"; Fixture.inside_line; "after"]))) /\
  (Forall (fun l => anchored_local l = None /\ anchored_global l = None)
          (split_lines Samples.commented_text) /\
   ifstream_open Samples.commented_platform "c.cpp"
   = Some Samples.commented_text /\
   ofstream_open Samples.commented_platform "c.out" = true /\
   Preprocess Samples.commented_platform [] 1 "c.cpp" "c.out" Fixture.fresh
   = Some (false,
           {| out_file := Some (unlines ["int f();"]);
              console := "unknown include file gone.h at file c.cpp at line 2" ++ endl |})).
Proof.
  split.
  - split; [repeat (constructor; [split; reflexivity|]); constructor|].
    split; [reflexivity|]. split; [reflexivity|].
    split; [vm_compute; reflexivity|].
    vm_compute. discriminate.
  - split; [repeat (constructor; [split; reflexivity|]); constructor|].
    split; [reflexivity|]. split; [reflexivity|].
    vm_compute. reflexivity.
Qed.



(** The two other cases of the driver on the fixture: an output file that
    cannot be opened, and old content that is gone after a run. *)
Example driver_unwritable_output :
  Preprocess Fixture.test_platform Fixture.test_include_dirs 0
             "sources/a.cpp" "nowhere/a.in"
             {| out_file := Some "old"; console := "" |}
  = Some (false, {| out_file := Some "old";
                    console := output_error "nowhere/a.in" |}).
Proof. reflexivity. Qed.

Example driver_truncates :
  Preprocess Fixture.shadow_platform Fixture.shadow_dirs 1
             "src/plain.txt" "out.txt"
             {| out_file := Some "old"; console := "" |}
  = Some (true, {| out_file := Some (unlines ["one"; "two"]); console := "" |}).
Proof. vm_compute. reflexivity. Qed.

(** C3.  A local directive resolves to the first existing path among the
    candidate next to the including file followed by the candidates of the
    search directories in their order: the relative candidate when it exists,
    the search list only when it does not; and the file the loop expands for
    the directive is that one path. *)
Theorem C3_local_resolution (P : Platform) (include_dirs : list path)
    (current_file : path) (name : string) :
  resolve_local P include_dirs current_file name
  = find (fs_exists P) (local_candidates P include_dirs current_file name) /\
  (fs_exists P (path_append P (parent_path P current_file) name) = true ->
   resolve_local P include_dirs current_file name
   = Some (path_append P (parent_path P current_file) name)) /\
  (fs_exists P (path_append P (parent_path P current_file) name) = false ->
   resolve_local P include_dirs current_file name
   = find (fs_exists P) (search_candidates P include_dirs name)) /\
  (forall rec l ls n st,
     classify l = Local name ->
     process_lines P include_dirs rec current_file (l :: ls) n st
     = match find (fs_exists P)
               (local_candidates P include_dirs current_file name) with
       | None =>
           Some (false, write_cout st (diagnostic name current_file (n + 1)))
       | Some full_path =>
           match rec full_path current_file (n + 1) st with
           | None => None
           | Some (false, st') => Some (false, st')
           | Some (true, st') =>
               process_lines P include_dirs rec current_file ls (n + 1) st'
           end
       end).
Proof.
  assert (E : resolve_local P include_dirs current_file name
              = find (fs_exists P)
                  (local_candidates P include_dirs current_file name)).
  { unfold resolve_local, local_candidates, search_candidates. simpl.
    destruct (fs_exists P (path_append P (parent_path P current_file) name));
      [reflexivity | apply search_dirs_find]. }
  split; [exact E|]. split; [|split].
  - intros H. unfold resolve_local. now rewrite H.
  - intros H. unfold resolve_local, search_candidates. rewrite H.
    apply search_dirs_find.
  - intros rec l ls n st Hc.
    rewrite process_lines_directive_line by (unfold is_plain; now rewrite Hc).
    rewrite Hc. simpl resolve. simpl directive_name. now rewrite E.
Qed.

Lemma C3_local_resolution_witness :
  fs_exists Fixture.shadow_platform
    (path_append Fixture.shadow_platform
       (parent_path Fixture.shadow_platform "src/m.cpp") "h.h") = true /\
  resolve_local Fixture.shadow_platform Fixture.shadow_dirs "src/m.cpp" "h.h"
  = Some (path_append Fixture.shadow_platform
            (parent_path Fixture.shadow_platform "src/m.cpp") "h.h").
Proof.
  split; [reflexivity|].
  apply (C3_local_resolution Fixture.shadow_platform Fixture.shadow_dirs
           "src/m.cpp" "h.h").
  reflexivity.
Defined.

(** Local resolution on the fixture: the header next to the including file
    wins over the one in the search list, and a header that is only in the
    search list is found in the first directory that has it. *)
Example local_prefers_relative :
  resolve_local Fixture.shadow_platform Fixture.shadow_dirs "src/m.cpp" "h.h"
  = Some "src/h.h" /\
  resolve_local Fixture.shadow_platform Fixture.shadow_dirs "other/m.cpp" "h.h"
  = Some "inc2/h.h" /\
  resolve_local Fixture.shadow_platform Fixture.shadow_dirs "src/m.cpp" "none.h"
  = None.
Proof. repeat split; reflexivity. Qed.

(** C4.  A global directive resolves to the first existing path among the
    candidates of the search directories in their order, and to nothing
    else: the including file plays no part, and when no search directory has
    the name the directive fails with its diagnostic, whether or not the name
    exists next to the including file. *)
Theorem C4_global_resolution (P : Platform) (include_dirs : list path)
    (name : string) :
  resolve_global P include_dirs name
  = find (fs_exists P) (search_candidates P include_dirs name) /\
  (forall f f',
     resolve P include_dirs f (Global name)
     = resolve P include_dirs f' (Global name)) /\
  (forall rec current_file l ls n st,
     classify l = Global name ->
     (forall d, In d include_dirs ->
                fs_exists P (path_append P d name) = false) ->
     process_lines P include_dirs rec current_file (l :: ls) n st
     = Some (false, write_cout st (diagnostic name current_file (n + 1)))).
Proof.
  split; [apply search_dirs_find|]. split; [reflexivity|].
  intros rec current_file l ls n st Hc Hnone.
  rewrite process_lines_unresolved.
  - now rewrite Hc.
  - unfold is_plain. now rewrite Hc.
  - rewrite Hc. simpl. unfold resolve_global. now apply search_dirs_none.
Qed.

Lemma C4_global_resolution_witness :
  classify "#include <only.h>" = Global "only.h" /\
  (forall d, In d Fixture.shadow_dirs ->
             fs_exists Fixture.shadow_platform
               (path_append Fixture.shadow_platform d "only.h") = false) /\
  fs_exists Fixture.shadow_platform
    (path_append Fixture.shadow_platform
       (parent_path Fixture.shadow_platform "src/m.cpp") "only.h") = true /\
  process_lines Fixture.shadow_platform Fixture.shadow_dirs
    (ProcessInclude Fixture.shadow_platform Fixture.shadow_dirs 1)
    "src/m.cpp" ["#include <only.h>"; "tail"] 2 Fixture.start
  = Some (false,
          write_cout Fixture.start (diagnostic "only.h" "src/m.cpp" (2 + 1))).
Proof.
  assert (Hn : forall d, In d Fixture.shadow_dirs ->
               fs_exists Fixture.shadow_platform
                 (path_append Fixture.shadow_platform d "only.h") = false).
  { intros d [<-|[<-|[]]]; reflexivity. }
  split; [reflexivity|]. split; [exact Hn|]. split; [reflexivity|].
  apply (C4_global_resolution Fixture.shadow_platform Fixture.shadow_dirs
           "only.h"); [reflexivity | exact Hn].
Defined.

(** The same fixture run as a whole: the local directive takes the header
    next to the file, the global one the header of the search list, and the
    global directive for a header that is only next to the file fails. *)
Example shadow_run :
  Preprocess Fixture.shadow_platform Fixture.shadow_dirs 2
             "src/m.cpp" "out.txt" Fixture.fresh
  = Some (false,
          {| out_file := Some (unlines ["relative"; "searched"]);
             console := "unknown include file only.h at file src/m.cpp at line 3" ++ endl |}).
Proof. vm_compute. reflexivity. Qed.

(** C5.  A successful expansion of a file writes, after what the output
    already held, the expansion of its lines as [Expands] describes it: each
    plain line in its place, each directive line replaced by the whole
    expansion of the included file before anything of the following line,
    nothing moved and nothing dropped; the console is left alone.
    Conversely every expansion that [Expands] describes is what the program
    writes, once the recursion budget covers the depth of the includes. *)
Theorem C5_depth_first (P : Platform) (include_dirs : list path)
    (file : path) (content : string) :
  ifstream_open P file = Some content ->
  (forall fuel src ln st st',
     ProcessInclude P include_dirs fuel file src ln st = Some (true, st') ->
     exists o,
       Expands P include_dirs file (split_lines content) o /\
       output st' = output st ++ o /\ cout st' = cout st) /\
  (forall o,
     Expands P include_dirs file (split_lines content) o ->
     exists k, forall fuel, (k <= fuel)%nat -> forall src ln st,
       ProcessInclude P include_dirs fuel file src ln st
       = Some (true, {| output := output st ++ o; cout := cout st |})).
Proof.
  intros Hopen. split.
  - intros fuel src ln st st' H.
    pose proof (ProcessInclude_sound P include_dirs fuel _ _ _ _ _ _ H) as Hs.
    rewrite Hopen in Hs. destruct Hs as (o & Ho & ->).
    exists o. repeat split; assumption.
  - intros o Ho.
    destruct (Expands_complete _ _ _ _ _ Ho) as [k Hk].
    exists (S k). intros fuel Hle src ln st.
    destruct fuel as [|fuel]; [lia|].
    rewrite ProcessInclude_S, Hopen. apply Hk. lia.
Qed.

Lemma C5_depth_first_witness :
  ifstream_open Fixture.test_platform "sources/dir1/b.h" = Some Fixture.b_h /\
  (forall fuel src ln st st',
     ProcessInclude Fixture.test_platform Fixture.test_include_dirs
                    fuel "sources/dir1/b.h" src ln st = Some (true, st') ->
     exists o,
       Expands Fixture.test_platform Fixture.test_include_dirs
               "sources/dir1/b.h" (split_lines Fixture.b_h) o /\
       output st' = output st ++ o /\ cout st' = cout st).
Proof.
  split; [reflexivity|].
  apply (C5_depth_first Fixture.test_platform Fixture.test_include_dirs
           "sources/dir1/b.h" Fixture.b_h).
  reflexivity.
Defined.

(** The nested includes of the fixture, b.h including c.h including std1.h:
    the text of the inner files stands between the lines of the outer ones. *)
Example nested_order :
  ProcessInclude Fixture.test_platform Fixture.test_include_dirs 3
                 "sources/dir1/b.h" "sources/a.cpp" 2 Fixture.start
  = Some (true,
          {| output := unlines ["// text from b.h before include";
                                "// text from c.h before include";
                                "// std1";
                                "// text from c.h after include";
                                "// text from b.h after include"];
             cout := "" |}).
Proof. vm_compute. reflexivity. Qed.

(** C6.  Whatever a call returns, the output it leaves starts with the output
    it found.  When the call fails on a file it could open, the output grew
    by exactly the text that precedes the failing directive in expansion
    order, as [Fails] describes it; when it could not open the file, the
    output did not grow.  A directive whose file fails, or that resolves to
    nothing, ends the loop of the enclosing file at once with failure: the
    result is the same whatever lines follow. *)
Theorem C6_failure_short_circuit (P : Platform) (include_dirs : list path)
    (fuel : nat) (file src : path) (ln : Z) (st : streams) :
  (forall b st',
     ProcessInclude P include_dirs fuel file src ln st = Some (b, st') ->
     exists o, output st' = output st ++ o) /\
  (forall st',
     ProcessInclude P include_dirs fuel file src ln st = Some (false, st') ->
     match ifstream_open P file with
     | None => output st' = output st
     | Some content =>
         exists o name f line,
           Fails P include_dirs file (split_lines content) 0 o name f line /\
           output st' = output st ++ o
     end) /\
  (forall l ls n p st0 st1,
     resolve P include_dirs file (classify l) = Some p ->
     ProcessInclude P include_dirs fuel p file (n + 1) st0 = Some (false, st1) ->
     process_lines P include_dirs (ProcessInclude P include_dirs fuel)
                   file (l :: ls) n st0
     = Some (false, st1)) /\
  (forall l ls n st0,
     is_plain l = false ->
     resolve P include_dirs file (classify l) = None ->
     exists st1,
       process_lines P include_dirs (ProcessInclude P include_dirs fuel)
                     file (l :: ls) n st0
       = Some (false, st1) /\
       output st1 = output st0).
Proof.
  assert (Hfail : forall st',
    ProcessInclude P include_dirs fuel file src ln st = Some (false, st') ->
    match ifstream_open P file with
    | None => output st' = output st
    | Some content =>
        exists o name f line,
          Fails P include_dirs file (split_lines content) 0 o name f line /\
          output st' = output st ++ o
    end).
  { intros st' H.
    pose proof (ProcessInclude_sound P include_dirs fuel _ _ _ _ _ _ H) as Hs.
    destruct (ifstream_open P file) as [content|].
    - destruct Hs as (o & name & f & line & HF & Hout & _).
      now exists o, name, f, line.
    - destruct Hs as [_ ->]. now destruct (path_empty src). }
  split; [|split; [exact Hfail|split]].
  - intros [|] st' H.
    + pose proof (ProcessInclude_sound P include_dirs fuel _ _ _ _ _ _ H) as Hs.
      destruct (ifstream_open P file) as [content|].
      * destruct Hs as (o & _ & ->). now exists o.
      * now destruct Hs.
    + specialize (Hfail _ H).
      destruct (ifstream_open P file) as [content|].
      * destruct Hfail as (o & _ & _ & _ & _ & Hout). now exists o.
      * exists "". now rewrite append_nil_r.
  - intros l ls n p st0 st1 Hres Hcall.
    now apply process_lines_propagates with (p := p).
  - intros l ls n st0 Hpl Hres.
    rewrite process_lines_unresolved by assumption.
    eexists. split; reflexivity.
Qed.

Lemma C6_failure_short_circuit_witness :
  ProcessInclude Fixture.test_platform Fixture.test_include_dirs 4
                 "sources/a.cpp" "" 0 Fixture.start
  = Some (false,
          {| output := Fixture.test_out;
             cout := "unknown include file dummy.txt at file sources/a.cpp at line 8" ++ endl |}) /\
  exists o name f line,
    Fails Fixture.test_platform Fixture.test_include_dirs
          "sources/a.cpp" (split_lines Fixture.a_cpp) 0 o name f line /\
    Fixture.test_out = output Fixture.start ++ o.
Proof.
  assert (Hrun :
    ProcessInclude Fixture.test_platform Fixture.test_include_dirs 4
                   "sources/a.cpp" "" 0 Fixture.start
    = Some (false,
            {| output := Fixture.test_out;
               cout := "unknown include file dummy.txt at file sources/a.cpp at line 8" ++ endl |})).
  { vm_compute. reflexivity. }
  split; [exact Hrun|].
  exact (proj1 (proj2 (C6_failure_short_circuit
                         Fixture.test_platform Fixture.test_include_dirs 4
                         "sources/a.cpp" "" 0 Fixture.start)) _ Hrun).
Defined.

(** C2.  A run in which the driver opened both files and the expansion then
    failed prints one line and no more: the diagnostic, made of the name
    asked for by the innermost failing directive (the base name of the
    resolved file when that file could not be opened), the file that holds
    that directive and its line.  Each enclosing call returns the state its
    callee returned, so nothing is printed on the way up. *)
Theorem C2_single_diagnostic (P : Platform) (include_dirs : list path)
    (fuel : nat) (input_file output_file : path) (content : string)
    (w w' : world) :
  ifstream_open P "" = None ->
  ifstream_open P input_file = Some content ->
  ofstream_open P output_file = true ->
  Preprocess P include_dirs fuel input_file output_file w = Some (false, w') ->
  (exists o name file line,
     Fails P include_dirs input_file (split_lines content) 0 o name file line /\
     console w' = console w ++
       "unknown include file " ++ name ++ " at file " ++ file ++
       " at line " ++ string_of_Z line ++ endl) /\
  (forall f l ls n p st st1,
     resolve P include_dirs f (classify l) = Some p ->
     ProcessInclude P include_dirs fuel p f (n + 1) st = Some (false, st1) ->
     process_lines P include_dirs (ProcessInclude P include_dirs fuel)
                   f (l :: ls) n st
     = Some (false, st1)).
Proof.
  intros He Hin Hout H. split.
  - unfold Preprocess in H. rewrite Hin, Hout in H.
    destruct (ProcessInclude P include_dirs fuel input_file "" 0
                {| output := ""; cout := console w |})
      as [[b st']|] eqn:Hrun; [|discriminate].
    injection H as -> <-.
    pose proof (ProcessInclude_sound P include_dirs fuel _ _ _ _ _ _ Hrun) as Hs.
    rewrite Hin in Hs.
    destruct Hs as (o & name & file & line & HF & _ & Hcout).
    exists o, name, file, line. split; [exact HF|].
    simpl. now rewrite (Hcout He).
  - intros f l ls n p st st1 Hres Hcall.
    now apply process_lines_propagates with (p := p).
Qed.

Lemma C2_single_diagnostic_witness :
  ifstream_open Fixture.test_platform "" = None /\
  ifstream_open Fixture.test_platform "sources/a.cpp" = Some Fixture.a_cpp /\
  ofstream_open Fixture.test_platform "sources/a.in" = true /\
  Preprocess Fixture.test_platform Fixture.test_include_dirs 4
             "sources/a.cpp" "sources/a.in" Fixture.fresh
  = Some (false,
          {| out_file := Some Fixture.test_out;
             console := "unknown include file dummy.txt at file sources/a.cpp at line 8" ++ endl |}) /\
  exists o name file line,
    Fails Fixture.test_platform Fixture.test_include_dirs
          "sources/a.cpp" (split_lines Fixture.a_cpp) 0 o name file line /\
    "unknown include file dummy.txt at file sources/a.cpp at line 8" ++ endl
    = console Fixture.fresh ++
      "unknown include file " ++ name ++ " at file " ++ file ++
      " at line " ++ string_of_Z line ++ endl.
Proof.
  assert (Hrun :
    Preprocess Fixture.test_platform Fixture.test_include_dirs 4
               "sources/a.cpp" "sources/a.in" Fixture.fresh
    = Some (false,
            {| out_file := Some Fixture.test_out;
               console := "unknown include file dummy.txt at file sources/a.cpp at line 8" ++ endl |})).
  { vm_compute. reflexivity. }
  split; [reflexivity|]. split; [reflexivity|]. split; [reflexivity|].
  split; [exact Hrun|].
  exact (proj1 (C2_single_diagnostic
                  Fixture.test_platform Fixture.test_include_dirs 4
                  "sources/a.cpp" "sources/a.in" Fixture.a_cpp
                  Fixture.fresh _ eq_refl eq_refl eq_refl Hrun)).
Defined.

(** A directive whose resolved path exists and cannot be opened (here a
    directory) is reported with the base name of that path. *)
Example unreadable_nested_include :
  ProcessInclude
    (Fixture.platform [("sources/m.cpp", unlines ["x"; Fixture.include "dir1/subdir"; "y"])]
                      ["sources"; "sources/dir1"; "sources/dir1/subdir"] [])
    [] 2 "sources/m.cpp" "" 0 Fixture.start
  = Some (false,
          {| output := unlines ["x"];
             cout := "unknown include file subdir at file sources/m.cpp at line 2" ++ endl |}).
Proof. vm_compute. reflexivity. Qed.

(** A failure three levels down: one diagnostic, naming the innermost file
    and the line of the directive in it; the output stops before it. *)
Example nested_failure_reported_once :
  Preprocess Fixture.deep_platform ["inc"] 3 "p/a.cpp" "p/a.out" Fixture.fresh
  = Some (false,
          {| out_file := Some (unlines ["a1"; "b1"; "b2"]);
             console := "unknown include file nowhere.h at file inc/c.h at line 1" ++ endl |}).
Proof. vm_compute. reflexivity. Qed.

(* ===================================================================== *)
(** * Further properties *)

(** ** The matcher, atom by atom *)

Section Atoms.

Import Regex.

Variable cls : ascii -> bool.
Variable r : regex.

Lemma rmatch_chr_inv h s cap m :
  rmatch (Chr h :: r) s cap = Some m ->
  exists s', s = String h s' /\ rmatch r s' cap = Some m.
Proof.
  simpl. destruct s as [|c s]; [discriminate|].
  destruct (Ascii.eqb_spec c h) as [->|]; [|discriminate].
  intros H. now exists s.
Qed.

Lemma rmatch_star_inv s cap m :
  rmatch (Star cls :: r) s cap = Some m ->
  exists ws s', s = ws ++ s' /\ all_chars cls ws = true /\
                rmatch r s' cap = Some m.
Proof.
  simpl. revert m. induction s as [|c s IH]; intros m H.
  - exists "", "". now repeat split.
  - destruct (cls c) eqn:Ec; [|exists "", (String c s); now repeat split].
    match type of H with
    | match ?F with _ => _ end = _ => destruct F as [x|] eqn:EF
    end.
    + destruct (IH _ eq_refl) as (ws & s' & -> & Hws & Hm).
      injection H as <-.
      exists (String c ws), s'. simpl. now rewrite Ec, Hws.
    + exists "", (String c s). now repeat split.
Qed.

Lemma rmatch_group_inv s cap m :
  rmatch (Group cls :: r) s cap = Some m ->
  exists g s', s = g ++ s' /\ all_chars cls g = true /\
               rmatch r s' g = Some m.
Proof.
  simpl. intros H.
  assert (G : forall s acc m,
    (fix group (s acc : string) : option string :=
       match s with
       | String c s' =>
           if cls c then
             match group s' (acc ++ String c "") with
             | Some m => Some m
             | None => rmatch r s acc
             end
           else rmatch r s acc
       | EmptyString => rmatch r s acc
       end) s acc = Some m ->
    exists g s', s = g ++ s' /\ all_chars cls g = true /\
                 rmatch r s' (acc ++ g) = Some m).
  { clear. induction s as [|c s IH]; intros acc m H.
    - exists "", "". rewrite (append_nil_r acc). now repeat split.
    - destruct (cls c) eqn:Ec;
        [|exists "", (String c s); rewrite (append_nil_r acc); now repeat split].
      match type of H with
      | match ?F with _ => _ end = _ => destruct F as [x|] eqn:EF
      end.
      + destruct (IH _ _ EF) as (g & s' & -> & Hg & Hm).
        injection H as <-.
        exists (String c g), s'. simpl. rewrite Ec, Hg.
        repeat split. now rewrite append_assoc in Hm.
      + exists "", (String c s). rewrite (append_nil_r acc). now repeat split. }
  exact (G _ _ _ H).
Qed.

(** A star followed by a match of the rest: the star can take all of [ws]
    when what follows does not start with a character of the class. *)
Lemma rmatch_star_skip ws rest cap m :
  all_chars cls ws = true ->
  match rest with
  | EmptyString => True
  | String c _ => cls c = false
  end ->
  rmatch r rest cap = Some m ->
  rmatch (Star cls :: r) (ws ++ rest) cap = Some m.
Proof.
  simpl. intros Hws Hrest Hm.
  induction ws as [|c ws IH]; simpl.
  - destruct rest as [|c s']; [exact Hm|]. now rewrite Hrest.
  - simpl in Hws. apply andb_prop in Hws as [-> Hws].
    now rewrite (IH Hws).
Qed.

Lemma rmatch_group_skip g rest m :
  all_chars cls g = true ->
  match rest with
  | EmptyString => True
  | String c _ => cls c = false
  end ->
  rmatch r rest g = Some m ->
  rmatch (Group cls :: r) (g ++ rest) "" = Some m.
Proof.
  simpl. intros Hg Hrest Hm.
  assert (G : forall g acc,
    all_chars cls g = true ->
    rmatch r rest (acc ++ g) = Some m ->
    (fix group (s acc : string) : option string :=
       match s with
       | String c s' =>
           if cls c then
             match group s' (acc ++ String c "") with
             | Some m => Some m
             | None => rmatch r s acc
             end
           else rmatch r s acc
       | EmptyString => rmatch r s acc
       end) (g ++ rest) acc = Some m).
  { clear g Hg Hm. induction g as [|c g IH]; intros acc Hg Hm; simpl.
    - rewrite append_nil_r in Hm.
      destruct rest as [|c s']; [exact Hm|]. now rewrite Hrest.
    - simpl in Hg. apply andb_prop in Hg as [-> Hg].
      rewrite (IH _ Hg); [reflexivity|].
      now rewrite append_assoc. }
  now apply G.
Qed.

End Atoms.

(** ** Strings cut at the first character outside a class *)

(** The text [x] is empty or starts outside the class. *)
Definition starts_outside (cls : ascii -> bool) (x : string) : Prop :=
  match x with
  | EmptyString => True
  | String c _ => cls c = false
  end.

Lemma split_unique (cls : ascii -> bool) (a b x y : string) :
  all_chars cls a = true -> all_chars cls b = true ->
  starts_outside cls x -> starts_outside cls y ->
  a ++ x = b ++ y ->
  a = b /\ x = y.
Proof.
  revert b. induction a as [|c a IH]; intros [|d b] Ha Hb Hx Hy E; simpl in *.
  - now split.
  - subst x. simpl in Hx. apply andb_prop in Hb as [Hd _]. congruence.
  - subst y. simpl in Hy. apply andb_prop in Ha as [Hc _]. congruence.
  - injection E as -> E.
    apply andb_prop in Ha as [_ Ha]. apply andb_prop in Hb as [_ Hb].
    destruct (IH _ Ha Hb Hx Hy E) as [-> ->]. now split.
Qed.

Lemma all_chars_app (cls : ascii -> bool) (a b : string) :
  all_chars cls (a ++ b) = all_chars cls a && all_chars cls b.
Proof.
  induction a as [|c a IH]; simpl; [reflexivity|].
  now rewrite IH, andb_assoc.
Qed.

Lemma all_chars_impl (cls1 cls2 : ascii -> bool) (s : string) :
  (forall c, cls1 c = true -> cls2 c = true) ->
  all_chars cls1 s = true -> all_chars cls2 s = true.
Proof.
  intros Himp. induction s as [|c s IH]; simpl; [reflexivity|].
  intros H. apply andb_prop in H as [Hc Hs].
  now rewrite (Himp _ Hc), (IH Hs).
Qed.

Lemma occurs_all_chars (h : ascii) (s : string) :
  occurs h s = negb (all_chars (Regex.not_char h) s).
Proof.
  induction s as [|c s IH]; simpl; [reflexivity|].
  rewrite IH. unfold Regex.not_char.
  now destruct (Ascii.eqb c h), (all_chars _ s).
Qed.

Lemma occurs_app (h : ascii) (a b : string) :
  occurs h (a ++ b) = occurs h a || occurs h b.
Proof.
  induction a as [|c a IH]; simpl; [reflexivity|].
  now rewrite IH, orb_assoc.
Qed.

Lemma space_is_not (h : ascii) (c : ascii) :
  Regex.is_space h = false ->
  Regex.is_space c = true -> Regex.not_char h c = true.
Proof.
  intros Hh Hc. unfold Regex.not_char.
  destruct (Ascii.eqb_spec c h) as [->|]; [congruence | reflexivity].
Qed.

(** ** The two patterns *)

Lemma include_local_pattern :
  Regex.include_local = directive_pattern dquote dquote.
Proof. reflexivity. Qed.

Lemma include_global_pattern :
  Regex.include_global = directive_pattern "<" ">".
Proof. reflexivity. Qed.

Lemma rmatch_chr_eq (h : ascii) (r : Regex.regex) (s cap : string) :
  Regex.rmatch (Regex.Chr h :: r) (String h s) cap = Regex.rmatch r s cap.
Proof. simpl. now rewrite Ascii.eqb_refl. Qed.

Lemma rmatch_star_last (cls : ascii -> bool) (s cap : string) :
  Regex.rmatch [Regex.Star cls] s cap = Some cap.
Proof.
  simpl. induction s as [|c s IH]; [reflexivity|].
  destruct (cls c); [now rewrite IH | reflexivity].
Qed.

(** What a match of a pattern at the start of [s] has read. *)
Lemma pattern_match_shape (op cl : ascii) (s m : string) :
  Regex.rmatch (directive_pattern op cl) s "" = Some m ->
  exists ws1 ws2 ws3 tail,
    s = ws1 ++ "#" ++ ws2 ++ "include" ++ ws3 ++
        String op (m ++ String cl tail) /\
    blank ws1 = true /\ blank ws2 = true /\ blank ws3 = true /\
    all_chars (Regex.not_char cl) m = true.
Proof.
  unfold directive_pattern. cbn [Regex.lit app]. intros H.
  apply rmatch_star_inv in H as (ws1 & s1 & -> & Hws1 & H).
  apply rmatch_chr_inv in H as (s2 & -> & H).
  apply rmatch_star_inv in H as (ws2 & s3 & -> & Hws2 & H).
  do 7 (apply rmatch_chr_inv in H as (? & -> & H)).
  apply rmatch_star_inv in H as (ws3 & s4 & -> & Hws3 & H).
  apply rmatch_chr_inv in H as (s5 & -> & H).
  apply rmatch_group_inv in H as (g & s6 & -> & Hg & H).
  apply rmatch_chr_inv in H as (tail & -> & H).
  rewrite rmatch_star_last in H. injection H as <-.
  exists ws1, ws2, ws3, tail. now repeat split.
Qed.

(** A well-formed directive at the start of [s] is matched, and the capture
    is the name between the delimiters. *)
Lemma pattern_match_canonical (op cl : ascii) (ws1 ws2 ws3 name tail : string) :
  Regex.is_space op = false ->
  blank ws1 = true -> blank ws2 = true -> blank ws3 = true ->
  all_chars (Regex.not_char cl) name = true ->
  Regex.rmatch (directive_pattern op cl)
    (ws1 ++ "#" ++ ws2 ++ "include" ++ ws3 ++ String op (name ++ String cl tail))
    "" = Some name.
Proof.
  intros Hop H1 H2 H3 Hn.
  unfold directive_pattern. cbn [Regex.lit app append].
  apply rmatch_star_skip; [exact H1 | reflexivity|].
  rewrite rmatch_chr_eq.
  apply rmatch_star_skip; [exact H2 | reflexivity|].
  rewrite !rmatch_chr_eq.
  apply rmatch_star_skip; [exact H3 | exact Hop|].
  rewrite rmatch_chr_eq.
  apply rmatch_group_skip; [exact Hn | |].
  - simpl. unfold Regex.not_char. now rewrite Ascii.eqb_refl.
  - rewrite rmatch_chr_eq. apply rmatch_star_last.
Qed.

(** ** [regex_search] over the positions of a line *)

Lemma regex_search_inv (r : Regex.regex) (s m : string) :
  Regex.regex_search r s = Some m ->
  exists pre s', s = pre ++ s' /\ Regex.rmatch r s' "" = Some m.
Proof.
  induction s as [|c s IH]; simpl.
  - destruct (Regex.rmatch r "" "") as [x|] eqn:E; [|discriminate].
    intros [= <-]. now exists "", "".
  - destruct (Regex.rmatch r (String c s) "") as [x|] eqn:E.
    + intros [= <-]. now exists "", (String c s).
    + intros H. destruct (IH H) as (pre & s' & -> & Hm).
      now exists (String c pre), s'.
Qed.

Lemma regex_search_found (r : Regex.regex) (pre s m : string) :
  Regex.rmatch r s "" = Some m ->
  exists m', Regex.regex_search r (pre ++ s) = Some m'.
Proof.
  intros Hm. induction pre as [|c pre [m' IH]].
  - exists m. destruct s; simpl; now rewrite Hm.
  - simpl. destruct (Regex.rmatch r (String c (pre ++ s)) "") as [x|].
    + now exists x.
    + now exists m'.
Qed.

(** When every match that starts inside [pre] has the capture [m], so has
    the leftmost one. *)
Lemma regex_search_leftmost (r : Regex.regex) (pre s m : string) :
  Regex.rmatch r s "" = Some m ->
  (forall p1 p2 x, pre = p1 ++ p2 ->
                   Regex.rmatch r (p2 ++ s) "" = Some x -> x = m) ->
  Regex.regex_search r (pre ++ s) = Some m.
Proof.
  intros Hm. induction pre as [|c pre IH]; intros Hall.
  - destruct s; simpl; now rewrite Hm.
  - simpl. destruct (Regex.rmatch r (String c (pre ++ s)) "") as [x|] eqn:E.
    + f_equal. now apply (Hall "" (String c pre) x).
    + apply IH. intros p1 p2 x -> Hx.
      now apply (Hall (String c p1) p2 x).
Qed.

(** A match that starts before a well-formed directive, with no hash sign in
    between, is the match of that directive. *)
Lemma pattern_match_exact (op cl : ascii)
    (pre ws1 ws2 ws3 name tail x : string) :
  Regex.is_space op = false ->
  occurs "#" pre = false ->
  blank ws1 = true -> blank ws2 = true -> blank ws3 = true ->
  all_chars (Regex.not_char cl) name = true ->
  Regex.rmatch (directive_pattern op cl)
    (pre ++ ws1 ++ "#" ++ ws2 ++ "include" ++ ws3 ++
     String op (name ++ String cl tail)) "" = Some x ->
  x = name.
Proof.
  intros Hop Hpre H1 H2 H3 Hn Hx.
  apply pattern_match_shape in Hx
    as (v1 & v2 & v3 & tail' & E & Hv1 & Hv2 & Hv3 & Hm).
  assert (Hsp : forall s, blank s = true ->
                          all_chars (Regex.not_char "#") s = true).
  { intros s. apply all_chars_impl. intros c. now apply space_is_not. }
  rewrite <- append_assoc in E. cbn [append] in E.
  apply (split_unique (Regex.not_char "#")) in E as [_ E];
    [ | rewrite all_chars_app, (Hsp _ H1);
        rewrite occurs_all_chars in Hpre;
        now destruct (all_chars (Regex.not_char "#") pre)
      | now apply Hsp | reflexivity | reflexivity ].
  injection E as E.
  apply (split_unique Regex.is_space) in E as [_ E];
    [ | exact H2 | exact Hv2 | reflexivity | reflexivity ].
  injection E as E.
  apply (split_unique Regex.is_space) in E as [_ E];
    [ | exact H3 | exact Hv3 | exact Hop | exact Hop ].
  injection E as E.
  apply (split_unique (Regex.not_char cl)) in E as [E _];
    [ now symmetry | exact Hn | exact Hm | | ];
    simpl; unfold Regex.not_char; now rewrite Ascii.eqb_refl.
Qed.

Lemma regex_search_shape (op cl : ascii) (l m : string) :
  Regex.regex_search (directive_pattern op cl) l = Some m ->
  directive_shape op cl l m.
Proof.
  intros H. apply regex_search_inv in H as (pre & s & -> & H).
  apply pattern_match_shape in H as (ws1 & ws2 & ws3 & tail & -> & H).
  now exists pre, ws1, ws2, ws3, tail.
Qed.

Lemma shape_regex_search (op cl : ascii) (l name : string) :
  Regex.is_space op = false ->
  directive_shape op cl l name ->
  exists m, Regex.regex_search (directive_pattern op cl) l = Some m.
Proof.
  intros Hop (pre & ws1 & ws2 & ws3 & tail & -> & H1 & H2 & H3 & Hn).
  apply regex_search_found with (m := name).
  now apply pattern_match_canonical.
Qed.

Lemma regex_search_exact (op cl : ascii) (pre ws1 ws2 ws3 name tail : string) :
  Regex.is_space op = false ->
  occurs "#" pre = false ->
  blank ws1 = true -> blank ws2 = true -> blank ws3 = true ->
  all_chars (Regex.not_char cl) name = true ->
  Regex.regex_search (directive_pattern op cl)
    (pre ++ ws1 ++ "#" ++ ws2 ++ "include" ++ ws3 ++
     String op (name ++ String cl tail)) = Some name.
Proof.
  intros Hop Hpre H1 H2 H3 Hn.
  apply regex_search_leftmost.
  - now apply pattern_match_canonical.
  - intros p1 p2 x -> Hx.
    rewrite occurs_app in Hpre. apply orb_false_elim in Hpre as [_ Hp2].
    now apply (pattern_match_exact op cl p2 ws1 ws2 ws3 name tail).
Qed.

Lemma shape_occurs_open (op cl : ascii) (l name : string) :
  directive_shape op cl l name -> occurs op l = true.
Proof.
  intros (pre & ws1 & ws2 & ws3 & tail & -> & _).
  rewrite !occurs_app. cbn [append occurs].
  rewrite !occurs_app. cbn [occurs]. rewrite Ascii.eqb_refl.
  now rewrite !orb_true_r.
Qed.

Lemma shape_occurs_hash (op cl : ascii) (l name : string) :
  directive_shape op cl l name -> occurs "#" l = true.
Proof.
  intros (pre & ws1 & ws2 & ws3 & tail & -> & _).
  rewrite !occurs_app. cbn [append occurs]. now rewrite !orb_true_r.
Qed.

(* ===================================================================== *)
(** * Further properties of the directive matcher *)

(** X1.  A line is classified [Local] exactly when a well-formed local
    directive stands somewhere in it, whatever precedes and follows; the
    name delivered is the text between a pair of double quotes of the line
    and holds no double quote. *)
Theorem X1_local_iff_shape (l : string) :
  (forall name, classify l = Local name ->
                directive_shape dquote dquote l name) /\
  ((exists name, directive_shape dquote dquote l name) ->
   exists name, classify l = Local name).
Proof.
  unfold classify. rewrite include_local_pattern. split.
  - intros name H.
    destruct (Regex.regex_search (directive_pattern dquote dquote) l)
      as [m|] eqn:E.
    + injection H as <-. now apply regex_search_shape.
    + destruct (Regex.regex_search Regex.include_global l); discriminate.
  - intros [name H].
    apply shape_regex_search in H as [m ->]; [|reflexivity].
    now exists m.
Qed.

Lemma X1_local_iff_shape_witness :
  classify Fixture.inside_line = Local "a.h" /\
  directive_shape dquote dquote Fixture.inside_line "a.h".
Proof.
  split; [reflexivity|].
  apply (X1_local_iff_shape Fixture.inside_line). reflexivity.
Defined.

(** X2.  When no hash sign stands before it, a well-formed local directive
    is recognised with exactly its name: the text before it and after the
    closing quote plays no part. *)
Theorem X2_local_exact (pre ws1 ws2 ws3 name tail : string) :
  occurs "#" pre = false ->
  blank ws1 = true -> blank ws2 = true -> blank ws3 = true ->
  occurs dquote name = false ->
  classify (pre ++ ws1 ++ "#" ++ ws2 ++ "include" ++ ws3 ++
            quoted name ++ tail) = Local name.
Proof.
  intros Hpre H1 H2 H3 Hn.
  replace (quoted name ++ tail) with (String dquote (name ++ String dquote tail))
    by (unfold quoted; simpl; now rewrite append_assoc).
  unfold classify. rewrite include_local_pattern.
  rewrite (regex_search_exact dquote dquote pre ws1 ws2 ws3 name tail);
    try assumption; [reflexivity | reflexivity|].
  rewrite occurs_all_chars in Hn.
  now destruct (all_chars (Regex.not_char dquote) name).
Qed.

Lemma X2_local_exact_witness :
  occurs "#" "// " = false /\ blank "  " = true /\ blank "" = true /\
  blank " " = true /\ occurs dquote "dir1/b.h" = false /\
  classify ("// " ++ "  " ++ "#" ++ "" ++ "include" ++ " " ++
            quoted "dir1/b.h" ++ " trailing") = Local "dir1/b.h".
Proof.
  repeat (split; [reflexivity|]).
  apply (X2_local_exact "// " "  " "" " " "dir1/b.h" " trailing");
    reflexivity.
Defined.

(** X3.  A line classified [Global] holds a well-formed global directive
    with that name, which has no closing bracket in it, and holds no
    well-formed local directive anywhere: the local pattern is tried first
    on the whole line. *)
Theorem X3_global_shape (l name : string) :
  classify l = Global name ->
  directive_shape "<" ">" l name /\
  (forall n, ~ directive_shape dquote dquote l n).
Proof.
  unfold classify. rewrite include_local_pattern, include_global_pattern.
  intros H.
  destruct (Regex.regex_search (directive_pattern dquote dquote) l)
    as [m|] eqn:El; [discriminate|].
  destruct (Regex.regex_search (directive_pattern "<" ">") l)
    as [m|] eqn:Eg; [|discriminate].
  injection H as <-. split; [now apply regex_search_shape|].
  intros n Hn. apply shape_regex_search in Hn as [x Hx]; [|reflexivity].
  congruence.
Qed.

Lemma X3_global_shape_witness :
  classify "#   include<dummy.txt>" = Global "dummy.txt" /\
  directive_shape "<" ">" "#   include<dummy.txt>" "dummy.txt" /\
  (forall n, ~ directive_shape dquote dquote "#   include<dummy.txt>" n).
Proof.
  split; [reflexivity|].
  apply (X3_global_shape "#   include<dummy.txt>" "dummy.txt"). reflexivity.
Defined.

(** X4.  When no hash sign stands before it and the line holds no double
    quote, a well-formed global directive is recognised with exactly its
    name. *)
Theorem X4_global_exact (pre ws1 ws2 ws3 name tail : string) :
  occurs "#" pre = false ->
  blank ws1 = true -> blank ws2 = true -> blank ws3 = true ->
  occurs ">" name = false ->
  occurs dquote (pre ++ name ++ tail) = false ->
  classify (pre ++ ws1 ++ "#" ++ ws2 ++ "include" ++ ws3 ++
            "<" ++ name ++ ">" ++ tail) = Global name.
Proof.
  intros Hpre H1 H2 H3 Hn Hq.
  change ("<" ++ name ++ ">" ++ tail) with (String "<" (name ++ String ">" tail)).
  unfold classify. rewrite include_local_pattern, include_global_pattern.
  destruct (Regex.regex_search (directive_pattern dquote dquote) _)
    as [m|] eqn:El.
  - (* a local match needs a double quote, and the line has none *)
    exfalso. apply regex_search_shape, shape_occurs_open in El.
    assert (Hb : forall s, blank s = true -> occurs dquote s = false).
    { intros s Hs. rewrite occurs_all_chars.
      rewrite (all_chars_impl Regex.is_space); [reflexivity | | exact Hs].
      intros c. now apply space_is_not. }
    rewrite !occurs_app in Hq.
    apply orb_false_elim in Hq as [Hq1 Hq].
    apply orb_false_elim in Hq as [Hq2 Hq3].
    repeat (progress (rewrite ?occurs_app in El; cbn [append occurs] in El)).
    rewrite Hq1, Hq2, Hq3, (Hb _ H1), (Hb _ H2), (Hb _ H3) in El.
    discriminate.
  - rewrite (regex_search_exact "<" ">" pre ws1 ws2 ws3 name tail);
      try assumption; [reflexivity | reflexivity|].
    rewrite occurs_all_chars in Hn.
    now destruct (all_chars (Regex.not_char ">") name).
Qed.

Lemma X4_global_exact_witness :
  occurs "#" "" = false /\ blank "" = true /\ blank "   " = true /\
  blank "" = true /\ occurs ">" "dummy.txt" = false /\
  occurs dquote ("" ++ "dummy.txt" ++ "") = false /\
  classify ("" ++ "" ++ "#" ++ "   " ++ "include" ++ "" ++
            "<" ++ "dummy.txt" ++ ">" ++ "") = Global "dummy.txt".
Proof.
  repeat (split; [reflexivity|]).
  apply (X4_global_exact "" "" "   " "" "dummy.txt" ""); reflexivity.
Defined.

(** X5.  A line is copied as plain text exactly when it holds neither a
    well-formed local nor a well-formed global directive; in particular
    every line without a hash sign is plain, and so is every line with
    neither a double quote nor an opening angle bracket. *)
Theorem X5_plain_iff_no_shape (l : string) :
  (is_plain l = true <->
   (forall n, ~ directive_shape dquote dquote l n) /\
   (forall n, ~ directive_shape "<" ">" l n)) /\
  (occurs "#" l = false -> is_plain l = true) /\
  (occurs dquote l = false -> occurs "<" l = false -> is_plain l = true).
Proof.
  assert (Hiff : is_plain l = true <->
            (forall n, ~ directive_shape dquote dquote l n) /\
            (forall n, ~ directive_shape "<" ">" l n)).
  { unfold is_plain, classify.
    rewrite include_local_pattern, include_global_pattern. split.
    - intros H.
      destruct (Regex.regex_search (directive_pattern dquote dquote) l)
        as [m|] eqn:El; [discriminate|].
      destruct (Regex.regex_search (directive_pattern "<" ">") l)
        as [m|] eqn:Eg; [discriminate|].
      split; intros n Hn;
        (apply shape_regex_search in Hn as [x Hx]; [|reflexivity]);
        congruence.
    - intros [Hl Hg].
      destruct (Regex.regex_search (directive_pattern dquote dquote) l)
        as [m|] eqn:El.
      { now apply regex_search_shape, Hl in El. }
      destruct (Regex.regex_search (directive_pattern "<" ">") l)
        as [m|] eqn:Eg.
      { now apply regex_search_shape, Hg in Eg. }
      reflexivity. }
  split; [exact Hiff|]. split.
  - intros Hh. apply Hiff.
    split; intros n Hn; apply shape_occurs_hash in Hn; congruence.
  - intros Hq Ha. apply Hiff.
    split; intros n Hn; apply shape_occurs_open in Hn; congruence.
Qed.

Lemma X5_plain_iff_no_shape_witness :
  occurs "#" "int SayHello() {" = false /\
  is_plain "int SayHello() {" = true.
Proof.
  split; [reflexivity|].
  exact (proj1 (proj2 (X5_plain_iff_no_shape "int SayHello() {")) eq_refl).
Defined.

(* ===================================================================== *)
(** * Further properties of the expander *)

Lemma append_length (a b : string) :
  String.length (a ++ b) = (String.length a + String.length b)%nat.
Proof. induction a as [|x a IH]; simpl; [reflexivity | now rewrite IH]. Qed.

Lemma append_eq_self (a b : string) : a ++ b = a -> b = "".
Proof.
  intros H. apply (f_equal String.length) in H.
  rewrite append_length in H.
  destruct b; [reflexivity | simpl in H; lia].
Qed.

(** The loop over two runs of lines, one after the other. *)
Lemma process_lines_app (P : Platform) (include_dirs : list path)
    (rec : path -> path -> Z -> streams -> option (bool * streams))
    (f : path) (ls1 ls2 : list string) (n : Z) (st : streams) :
  process_lines P include_dirs rec f (ls1 ++ ls2) n st
  = match process_lines P include_dirs rec f ls1 n st with
    | Some (true, st1) =>
        process_lines P include_dirs rec f ls2
                      (n + Z.of_nat (length ls1)) st1
    | other => other
    end.
Proof.
  revert n st. induction ls1 as [|l ls1 IH]; intros n st.
  - simpl. now rewrite Z.add_0_r.
  - replace (n + Z.of_nat (length (l :: ls1)))
      with (n + 1 + Z.of_nat (length ls1)) by (simpl length; lia).
    change ((l :: ls1) ++ ls2)%list with (l :: (ls1 ++ ls2))%list.
    destruct (is_plain l) eqn:Hpl.
    + rewrite !process_lines_plain_line by exact Hpl. apply IH.
    + rewrite !process_lines_directive_line by exact Hpl.
      destruct (resolve P include_dirs f (classify l)) as [p|];
        [|reflexivity].
      destruct (rec p f (n + 1) st) as [[[|] st1]|]; [apply IH | | ];
        reflexivity.
Qed.

(** X6.  The loop over the lines of a file composes: running it over two
    runs of lines is running it over the first and, when that succeeds, over
    the second from the state it left, the line counter advanced by the
    number of lines of the first; a failure or a recursion that does not
    return in the first run is the result of the whole. *)
Theorem X6_process_lines_app (P : Platform) (include_dirs : list path)
    (rec : path -> path -> Z -> streams -> option (bool * streams))
    (f : path) (ls1 ls2 : list string) (n : Z) (st : streams) :
  process_lines P include_dirs rec f (ls1 ++ ls2) n st
  = match process_lines P include_dirs rec f ls1 n st with
    | Some (true, st1) =>
        process_lines P include_dirs rec f ls2
                      (n + Z.of_nat (length ls1)) st1
    | other => other
    end.
Proof. apply process_lines_app. Qed.

(** ** The recursion budget *)

Section Budget.

Variable P : Platform.
Variable include_dirs : list path.

(** [rec'] returns whatever [rec] returns. *)
Definition extends
    (rec rec' : path -> path -> Z -> streams -> option (bool * streams)) : Prop :=
  forall p src ln st r, rec p src ln st = Some r -> rec' p src ln st = Some r.

Lemma process_lines_extends rec rec' (Hext : extends rec rec') :
  forall lines f n st r,
    process_lines P include_dirs rec f lines n st = Some r ->
    process_lines P include_dirs rec' f lines n st = Some r.
Proof.
  induction lines as [|l ls IH]; intros f n st r H; [exact H|].
  destruct (is_plain l) eqn:Hpl.
  - rewrite process_lines_plain_line in * by exact Hpl. now apply IH.
  - rewrite process_lines_directive_line in * by exact Hpl.
    destruct (resolve P include_dirs f (classify l)) as [p|]; [|exact H].
    destruct (rec p f (n + 1) st) as [[[|] st1]|] eqn:Hcall;
      [| |discriminate]; rewrite (Hext _ _ _ _ _ Hcall); [now apply IH | exact H].
Qed.

Lemma ProcessInclude_extends_S (fuel : nat) :
  extends (ProcessInclude P include_dirs fuel)
          (ProcessInclude P include_dirs (S fuel)).
Proof.
  induction fuel as [|fuel IH]; intros p src ln st r H; [discriminate|].
  rewrite ProcessInclude_S in H. rewrite ProcessInclude_S.
  destruct (ifstream_open P p); [|exact H].
  now apply (process_lines_extends _ _ IH).
Qed.

Lemma ProcessInclude_extends (fuel fuel' : nat) :
  (fuel <= fuel')%nat ->
  extends (ProcessInclude P include_dirs fuel)
          (ProcessInclude P include_dirs fuel').
Proof.
  induction 1 as [|k _ IH]; intros p src ln st r H; [exact H|].
  now apply ProcessInclude_extends_S, IH.
Qed.

End Budget.

(** X7.  A call that returns within some depth of recursion returns the same
    result, with the same streams, at every greater depth; so does a run of
    the driver.  The result of an expansion that ends does not depend on how
    deep the recursion was allowed to go. *)
Theorem X7_budget_monotone (P : Platform) (include_dirs : list path)
    (fuel fuel' : nat) :
  (fuel <= fuel')%nat ->
  (forall f src ln st r,
     ProcessInclude P include_dirs fuel f src ln st = Some r ->
     ProcessInclude P include_dirs fuel' f src ln st = Some r) /\
  (forall input_file output_file w r,
     Preprocess P include_dirs fuel input_file output_file w = Some r ->
     Preprocess P include_dirs fuel' input_file output_file w = Some r).
Proof.
  intros Hle. split.
  - intros f src ln st r. now apply ProcessInclude_extends.
  - intros input_file output_file w r. unfold Preprocess.
    destruct (ifstream_open P input_file); [|trivial].
    destruct (ofstream_open P output_file); [|trivial].
    destruct (ProcessInclude P include_dirs fuel input_file "" 0
                {| output := ""; cout := console w |}) as [res|] eqn:E;
      [|discriminate].
    now rewrite (ProcessInclude_extends P include_dirs _ _ Hle _ _ _ _ _ E).
Qed.

Lemma X7_budget_monotone_witness :
  (4 <= 9)%nat /\
  Preprocess Fixture.test_platform Fixture.test_include_dirs 9
             "sources/a.cpp" "sources/a.in" Fixture.fresh
  = Some (false,
          {| out_file := Some Fixture.test_out;
             console := "unknown include file dummy.txt at file sources/a.cpp at line 8" ++ endl |}).
Proof.
  split; [lia|].
  apply (X7_budget_monotone Fixture.test_platform Fixture.test_include_dirs
           4 9); [lia|].
  vm_compute. reflexivity.
Defined.

(** ** Expansions that end and expansions that do not *)

Section Termination.

Variable P : Platform.
Variable include_dirs : list path.

Lemma process_lines_returns rec f :
  forall lines,
    (forall l p, In l lines ->
                 resolve P include_dirs f (classify l) = Some p ->
                 forall src ln st, exists r, rec p src ln st = Some r) ->
    forall n st, exists r,
      process_lines P include_dirs rec f lines n st = Some r.
Proof.
  induction lines as [|l ls IH]; intros Hrec n st; [now eexists|].
  assert (Hls : forall n st, exists r,
             process_lines P include_dirs rec f ls n st = Some r).
  { apply IH. intros l' p Hin. apply Hrec. now right. }
  destruct (is_plain l) eqn:Hpl.
  - rewrite process_lines_plain_line by exact Hpl. apply Hls.
  - rewrite process_lines_directive_line by exact Hpl.
    destruct (resolve P include_dirs f (classify l)) as [p|] eqn:Hres;
      [|now eexists].
    destruct (Hrec l p (or_introl eq_refl) Hres f (n + 1) st) as [[[|] st1] ->].
    + apply Hls.
    + now eexists.
Qed.

Lemma Expands_not_false f pre o fuel n st st' :
  Expands P include_dirs f pre o ->
  process_lines P include_dirs (ProcessInclude P include_dirs fuel)
                f pre n st <> Some (false, st').
Proof.
  intros Hexp Hrun.
  destruct (Expands_complete _ _ _ _ _ Hexp) as [k Hk].
  specialize (Hk (Nat.max k fuel) ltac:(lia) n st).
  apply (process_lines_extends P include_dirs _ _
           (ProcessInclude_extends P include_dirs fuel (Nat.max k fuel)
              ltac:(lia))) in Hrun.
  congruence.
Qed.

End Termination.

(** X8.  When the files can be ranked so that every directive that resolves
    leads to a file of smaller rank (the includes form no cycle and have a
    bounded depth), every call returns: with a recursion as deep as the rank
    allows, [ProcessInclude] ends with a result on every file. *)
Theorem X8_returns_on_ranked_includes (P : Platform) (include_dirs : list path)
    (rank : path -> nat) :
  (forall f content l p,
     ifstream_open P f = Some content ->
     In l (split_lines content) ->
     resolve P include_dirs f (classify l) = Some p ->
     (rank p < rank f)%nat) ->
  forall f src ln st, exists r,
    ProcessInclude P include_dirs (S (rank f)) f src ln st = Some r.
Proof.
  intros Hrank.
  assert (H : forall fuel f, (rank f < fuel)%nat ->
            forall src ln st, exists r,
              ProcessInclude P include_dirs fuel f src ln st = Some r).
  { induction fuel as [|fuel IH]; intros f Hlt src ln st; [lia|].
    rewrite ProcessInclude_S.
    destruct (ifstream_open P f) as [content|] eqn:Hopen; [|now eexists].
    apply process_lines_returns. intros l p Hin Hres.
    apply IH. specialize (Hrank _ _ _ _ Hopen Hin Hres). lia. }
  intros f. apply H. lia.
Qed.

Lemma X8_returns_on_ranked_includes_witness :
  (forall f content l p,
     ifstream_open Fixture.inside_platform f = Some content ->
     In l (split_lines content) ->
     resolve Fixture.inside_platform [] f (classify l) = Some p ->
     (Samples.inside_rank p < Samples.inside_rank f)%nat) /\
  exists r,
    ProcessInclude Fixture.inside_platform []
                   (S (Samples.inside_rank "m.cpp")) "m.cpp" "" 0 Fixture.start
    = Some r.
Proof.
  assert (Hrank : forall f content l p,
     ifstream_open Fixture.inside_platform f = Some content ->
     In l (split_lines content) ->
     resolve Fixture.inside_platform [] f (classify l) = Some p ->
     (Samples.inside_rank p < Samples.inside_rank f)%nat).
  { intros f content l p Hopen Hin Hres.
    simpl in Hopen.
    destruct (String.eqb_spec f "m.cpp") as [->|_].
    - injection Hopen as <-. vm_compute in Hin.
      destruct Hin as [<-|[<-|[<-|[]]]]; vm_compute in Hres;
        try discriminate.
      injection Hres as <-. vm_compute. lia.
    - destruct (String.eqb_spec f "a.h") as [->|_]; [|discriminate].
      injection Hopen as <-. vm_compute in Hin.
      destruct Hin as [<-|[]]. vm_compute in Hres. discriminate. }
  split; [exact Hrank|].
  exact (X8_returns_on_ranked_includes Fixture.inside_platform []
           Samples.inside_rank Hrank "m.cpp" "" 0 Fixture.start).
Defined.

(** ** Includes that go round *)

Section Cycles.

Variable P : Platform.
Variable include_dirs : list path.

Lemma process_lines_ext rec rec' :
  (forall p src ln st, rec p src ln st = rec' p src ln st) ->
  forall lines f n st,
    process_lines P include_dirs rec f lines n st
    = process_lines P include_dirs rec' f lines n st.
Proof.
  intros Hext. induction lines as [|l ls IH]; intros f n st; [reflexivity|].
  destruct (is_plain l) eqn:Hpl.
  - rewrite !process_lines_plain_line by exact Hpl. apply IH.
  - rewrite !process_lines_directive_line by exact Hpl.
    destruct (resolve P include_dirs f (classify l)) as [p|]; [|reflexivity].
    rewrite Hext.
    destruct (rec' p f (n + 1) st) as [[[|] st1]|]; [apply IH | | ];
      reflexivity.
Qed.

(** With opens that never fail for the depth, the two functions agree. *)
Lemma ProcessIncludeAt_unlimited (fuel depth : nat) f src ln st :
  ProcessIncludeAt P include_dirs (fun _ _ => true) fuel depth f src ln st
  = ProcessInclude P include_dirs fuel f src ln st.
Proof.
  revert depth f src ln st.
  induction fuel as [|fuel IH]; intros depth f src ln st; [reflexivity|].
  rewrite ProcessInclude_S. simpl. unfold open_at.
  destruct (ifstream_open P f); [|reflexivity].
  apply process_lines_ext. intros p src' ln' st'. apply IH.
Qed.

(** A loop that ends with success has had success from every include. *)
Lemma process_lines_true_calls rec f :
  forall lines n st st',
    process_lines P include_dirs rec f lines n st = Some (true, st') ->
    forall l p,
      In l lines ->
      resolve P include_dirs f (classify l) = Some p ->
      exists n0 st0 st1, rec p f n0 st0 = Some (true, st1).
Proof.
  induction lines as [|a ls IH]; intros n st st' H l p Hin Hres; [destruct Hin|].
  destruct (is_plain a) eqn:Hpl.
  - rewrite process_lines_plain_line in H by exact Hpl.
    destruct Hin as [->|Hin]; [|now apply (IH _ _ _ H l p)].
    apply resolve_some_directive in Hres. congruence.
  - rewrite process_lines_directive_line in H by exact Hpl.
    destruct (resolve P include_dirs f (classify a)) as [q|] eqn:Hq;
      [|discriminate].
    destruct (rec q f (n + 1) st) as [[[|] st1]|] eqn:Hcall;
      [|discriminate|discriminate].
    destruct Hin as [->|Hin]; [|now apply (IH _ _ _ H l p)].
    rewrite Hq in Hres. injection Hres as <-.
    now exists (n + 1), st, st1.
Qed.

Variable can_open : nat -> path -> bool.

Lemma cycle_never_true (cyc : path -> Prop) :
  (forall f content,
     cyc f -> ifstream_open P f = Some content ->
     exists l p, In l (split_lines content) /\
                 resolve P include_dirs f (classify l) = Some p /\ cyc p) ->
  forall fuel depth f src ln st st',
    cyc f ->
    ProcessIncludeAt P include_dirs can_open fuel depth f src ln st
    <> Some (true, st').
Proof.
  intros Hcyc.
  induction fuel as [|fuel IH]; intros depth f src ln st st' Hf H;
    [discriminate|].
  simpl in H. unfold open_at in H.
  destruct (can_open depth f); [|discriminate].
  destruct (ifstream_open P f) as [content|] eqn:Hopen; [|discriminate].
  destruct (Hcyc f content Hf Hopen) as (l & p & Hin & Hres & Hp).
  destruct (process_lines_true_calls _ _ _ _ _ _ H l p Hin Hres)
    as (n0 & st0 & st1 & Hcall).
  exact (IH _ _ _ _ _ _ Hp Hcall).
Qed.

(** A file that includes itself after plain lines, with opens that succeed
    at [k] depths and then fail. *)
Lemma self_include_limited f content pre l rest :
  path_empty f = false ->
  ifstream_open P f = Some content ->
  split_lines content = (pre ++ l :: rest)%list ->
  Forall (fun x => is_plain x = true) pre ->
  resolve P include_dirs f (classify l) = Some f ->
  forall k depth src ln st fuel,
    (forall j, (j < k)%nat -> can_open (depth + j) f = true) ->
    can_open (depth + k) f = false ->
    (k = 0%nat -> path_empty src = false) ->
    (k < fuel)%nat ->
    ProcessIncludeAt P include_dirs can_open fuel depth f src ln st
    = Some (false,
            {| output := output st ++ copies k (unlines pre);
               cout := cout st ++
                 match k with
                 | O => diagnostic (filename P f) src ln
                 | S _ => diagnostic (filename P f) f
                                     (Z.of_nat (length pre) + 1)
                 end |}).
Proof.
  intros Hf Hopen Hsplit Hplain Hres.
  induction k as [|k IH]; intros depth src ln st fuel Hyes Hno Hsrc Hlt;
    (destruct fuel as [|fuel]; [lia|]); simpl; unfold open_at.
  - rewrite Nat.add_0_r in Hno. rewrite Hno, (Hsrc eq_refl).
    unfold write_cout. simpl. now rewrite append_nil_r.
  - rewrite <- (Nat.add_0_r depth) at 1. rewrite (Hyes 0%nat) by lia.
    rewrite Hopen, Hsplit, process_lines_app.
    rewrite process_lines_all_plain by exact Hplain.
    rewrite process_lines_propagates
      with (p := f)
           (st1 := {| output := (output st ++ unlines pre) ++ copies k (unlines pre);
                      cout := cout st ++
                        diagnostic (filename P f) f (Z.of_nat (length pre) + 1) |}).
    + simpl. now rewrite append_assoc.
    + exact Hres.
    + replace (0 + Z.of_nat (length pre) + 1) with (Z.of_nat (length pre) + 1)
        by lia.
      rewrite (IH (S depth) f (Z.of_nat (length pre) + 1)
                  (write_output st (unlines pre)) fuel).
      * simpl. now destruct k.
      * intros j Hj. rewrite <- (Hyes (S j)) by lia. f_equal. lia.
      * rewrite <- Hno. f_equal. lia.
      * intros _. exact Hf.
      * lia.
Qed.

End Cycles.

(** X9.  An expansion that runs into a cycle of includes never succeeds.
    Take a set of files each of which, when it opens, has a directive that
    resolves to a file of the set again.  On a file of the set the call does
    not return true, however deep the recursion may go and whether or not
    opens begin to fail at some depth (each level keeps its stream open, so
    a limit on open files can make a nested open fail): it does not return,
    or it returns failure.  For a file that includes itself after plain
    lines, when opens succeed at the depths up to [d] and fail at the next,
    the call returns failure, having written those lines once per level and
    printed one diagnostic, which names the file as missing from itself.
    The program has no guard against cyclic includes. *)
Theorem X9_include_cycle_never_succeeds (P : Platform)
    (include_dirs : list path) (can_open : nat -> path -> bool) :
  (forall cyc : path -> Prop,
     (forall f content,
        cyc f -> ifstream_open P f = Some content ->
        exists l p, In l (split_lines content) /\
                    resolve P include_dirs f (classify l) = Some p /\ cyc p) ->
     forall fuel depth f src ln st st',
       cyc f ->
       ProcessIncludeAt P include_dirs can_open fuel depth f src ln st
       <> Some (true, st') /\
       ProcessInclude P include_dirs fuel f src ln st <> Some (true, st')) /\
  (forall f content pre l rest d,
     path_empty f = false ->
     ifstream_open P f = Some content ->
     split_lines content = (pre ++ l :: rest)%list ->
     Forall (fun x => is_plain x = true) pre ->
     resolve P include_dirs f (classify l) = Some f ->
     (forall j, (j <= d)%nat -> can_open j f = true) ->
     can_open (S d) f = false ->
     forall fuel src ln st,
       (S d < fuel)%nat ->
       ProcessIncludeAt P include_dirs can_open fuel 0 f src ln st
       = Some (false,
               {| output := output st ++ copies (S d) (unlines pre);
                  cout := cout st ++
                    diagnostic (filename P f) f (Z.of_nat (length pre) + 1) |})).
Proof.
  split.
  - intros cyc Hcyc fuel depth f src ln st st' Hf. split.
    + now apply (cycle_never_true P include_dirs can_open cyc Hcyc).
    + rewrite <- (ProcessIncludeAt_unlimited P include_dirs fuel 0).
      now apply (cycle_never_true P include_dirs (fun _ _ => true) cyc Hcyc).
  - intros f content pre l rest d Hf Hopen Hsplit Hplain Hres Hyes Hno
           fuel src ln st Hlt.
    apply (self_include_limited P include_dirs can_open f content pre l rest
             Hf Hopen Hsplit Hplain Hres (S d) 0%nat src ln st fuel).
    + intros j Hj. apply Hyes. lia.
    + exact Hno.
    + discriminate.
    + exact Hlt.
Qed.

Lemma X9_include_cycle_never_succeeds_witness :
  path_empty "loop.h" = false /\
  ifstream_open Samples.loop_platform "loop.h"
  = Some (unlines ["x"; Fixture.include "loop.h"; "y"]) /\
  split_lines (unlines ["x"; Fixture.include "loop.h"; "y"])
  = (["x"] ++ Fixture.include "loop.h" :: ["y"])%list /\
  Forall (fun x => is_plain x = true) ["x"] /\
  resolve Samples.loop_platform [] "loop.h"
          (classify (Fixture.include "loop.h")) = Some "loop.h" /\
  (forall j, (j <= 2)%nat -> Samples.three_streams j "loop.h" = true) /\
  Samples.three_streams 3 "loop.h" = false /\
  ProcessIncludeAt Samples.loop_platform [] Samples.three_streams 9 0
                   "loop.h" "" 0 Fixture.start
  = Some (false,
          {| output := output Fixture.start ++ copies 3 (unlines ["x"]);
             cout := cout Fixture.start ++
               diagnostic (filename Samples.loop_platform "loop.h") "loop.h"
                          (Z.of_nat (length ["x"]) + 1) |}).
Proof.
  assert (Hp : Forall (fun x => is_plain x = true) ["x"]).
  { repeat constructor. }
  assert (Hyes : forall j, (j <= 2)%nat ->
                           Samples.three_streams j "loop.h" = true).
  { intros j Hj. unfold Samples.three_streams. now apply Nat.leb_le. }
  split; [reflexivity|]. split; [reflexivity|]. split; [reflexivity|].
  split; [exact Hp|]. split; [reflexivity|]. split; [exact Hyes|].
  split; [reflexivity|].
  apply (proj2 (X9_include_cycle_never_succeeds Samples.loop_platform []
                  Samples.three_streams)
           "loop.h" (unlines ["x"; Fixture.include "loop.h"; "y"])
           ["x"] (Fixture.include "loop.h") ["y"] 2%nat);
    [reflexivity | reflexivity | reflexivity | exact Hp | reflexivity
    | exact Hyes | reflexivity | lia].
Defined.

(** The same run evaluated: three levels write the line "x", the fourth
    cannot open the file, and one diagnostic is printed.  Without a limit
    the recursion goes on as deep as it is allowed to. *)
Example self_include_three_streams :
  ProcessIncludeAt Samples.loop_platform [] Samples.three_streams 9 0
                   "loop.h" "" 0 Fixture.start
  = Some (false,
          {| output := unlines ["x"; "x"; "x"];
             cout := "unknown include file loop.h at file loop.h at line 2" ++ endl |}) /\
  ProcessInclude Samples.loop_platform [] 50 "loop.h" "" 0 Fixture.start = None.
Proof. split; vm_compute; reflexivity. Qed.

(** ** The streams are only appended to *)

Lemma shift_start (d : streams) : shift Fixture.start d = d.
Proof. now destruct d. Qed.

Lemma shift_assoc (a b c : streams) :
  shift (shift a b) c = shift a (shift b c).
Proof. unfold shift; simpl. now rewrite !append_assoc. Qed.

Lemma replay_replay (st d : streams) (r : option (bool * streams)) :
  replay (shift st d) r = replay st (replay d r).
Proof. destruct r as [[b x]|]; simpl; [now rewrite shift_assoc | reflexivity]. Qed.

Section Frame.

Variable P : Platform.
Variable include_dirs : list path.

Definition framed
    (rec : path -> path -> Z -> streams -> option (bool * streams)) : Prop :=
  forall p src ln st,
    rec p src ln st = replay st (rec p src ln Fixture.start).

Lemma process_lines_framed rec (Hrec : framed rec) :
  forall lines f n st,
    process_lines P include_dirs rec f lines n st
    = replay st (process_lines P include_dirs rec f lines n Fixture.start).
Proof.
  induction lines as [|l ls IH]; intros f n st.
  - simpl. unfold shift. simpl. rewrite !append_nil_r. now destruct st.
  - destruct (is_plain l) eqn:Hpl.
    + rewrite !process_lines_plain_line by exact Hpl.
      rewrite IH, (IH _ _ (write_output Fixture.start _)).
      rewrite <- replay_replay. f_equal.
      unfold shift, write_output. simpl. now rewrite append_nil_r.
    + rewrite !process_lines_directive_line by exact Hpl.
      destruct (resolve P include_dirs f (classify l)) as [p|].
      * rewrite (Hrec p f (n + 1) st).
        destruct (rec p f (n + 1) Fixture.start) as [[[|] d]|]; simpl.
        -- rewrite IH, (IH _ _ d). now rewrite <- replay_replay.
        -- reflexivity.
        -- reflexivity.
      * simpl. unfold shift, write_cout. simpl. now rewrite append_nil_r.
Qed.

Lemma ProcessInclude_framed (fuel : nat) :
  framed (ProcessInclude P include_dirs fuel).
Proof.
  induction fuel as [|fuel IH]; intros p src ln st; [reflexivity|].
  rewrite !ProcessInclude_S.
  destruct (ifstream_open P p).
  - now apply process_lines_framed.
  - simpl. unfold shift, write_cout.
    destruct (path_empty src); simpl; rewrite ?append_nil_r; now destruct st.
Qed.

End Frame.

(** X10.  A call never looks at, and never alters, what the streams already
    hold: its result on any streams is its result on empty streams with the
    text it wrote put after what was there, for the output and for the
    console alike, and it fails to return on the one exactly when it fails to
    return on the other. *)
Theorem X10_streams_only_appended (P : Platform) (include_dirs : list path)
    (fuel : nat) (f src : path) (ln : Z) (st : streams) :
  ProcessInclude P include_dirs fuel f src ln st
  = match ProcessInclude P include_dirs fuel f src ln
            {| output := ""; cout := "" |} with
    | None => None
    | Some (b, d) =>
        Some (b, {| output := output st ++ output d;
                    cout := cout st ++ cout d |})
    end.
Proof. apply ProcessInclude_framed. Qed.

(** X11.  A run that returns has printed something exactly when it failed:
    a successful run leaves the console as it was, and a failed run has
    added one message to it, the driver's or the expander's. *)
Theorem X11_quiet_iff_success (P : Platform) (include_dirs : list path)
    (fuel : nat) (input_file output_file : path) (w w' : world) (b : bool) :
  ifstream_open P "" = None ->
  Preprocess P include_dirs fuel input_file output_file w = Some (b, w') ->
  (b = true <-> console w' = console w) /\
  (b = false ->
   console w' = console w ++ input_error input_file \/
   console w' = console w ++ output_error output_file \/
   exists name file line,
     console w' = console w ++ diagnostic name file line).
Proof.
  intros He H. unfold Preprocess in H.
  destruct (ifstream_open P input_file) as [content|] eqn:Hin.
  - destruct (ofstream_open P output_file).
    + destruct (ProcessInclude P include_dirs fuel input_file "" 0
                  {| output := ""; cout := console w |})
        as [[b1 st']|] eqn:Hrun; [|discriminate].
      injection H as -> <-. simpl.
      pose proof (ProcessInclude_sound P include_dirs fuel _ _ _ _ _ _ Hrun)
        as Hs.
      rewrite Hin in Hs. destruct b.
      * destruct Hs as (o & _ & ->). simpl. split; [tauto | discriminate].
      * destruct Hs as (o & name & file & line & _ & _ & Hc).
        specialize (Hc He). simpl in Hc. split.
        -- split; [discriminate|]. rewrite Hc. intros E.
           apply append_eq_self in E. discriminate.
        -- intros _. right. right. now exists name, file, line.
    + injection H as <- <-. simpl. split.
      * split; [discriminate|]. intros E.
        apply append_eq_self in E. discriminate.
      * intros _. right. now left.
  - injection H as <- <-. simpl. split.
    + split; [discriminate|]. intros E.
      apply append_eq_self in E. discriminate.
    + intros _. now left.
Qed.

Lemma X11_quiet_iff_success_witness :
  ifstream_open Fixture.shadow_platform "" = None /\
  Preprocess Fixture.shadow_platform Fixture.shadow_dirs 2
             "src/e.cpp" "out.txt" Fixture.fresh
  = Some (true, {| out_file := Some (unlines ["a"; "b"]); console := "" |}) /\
  (true = true <-> "" = console Fixture.fresh).
Proof.
  assert (Hrun :
    Preprocess Fixture.shadow_platform Fixture.shadow_dirs 2
               "src/e.cpp" "out.txt" Fixture.fresh
    = Some (true, {| out_file := Some (unlines ["a"; "b"]); console := "" |})).
  { vm_compute. reflexivity. }
  split; [reflexivity|]. split; [exact Hrun|].
  exact (proj1 (X11_quiet_iff_success Fixture.shadow_platform
                  Fixture.shadow_dirs 2 "src/e.cpp" "out.txt" Fixture.fresh
                  _ true eq_refl Hrun)).
Defined.

(** X12.  Including a file that holds no directive adds its text with the
    last line closed by a newline, so that the line after the directive
    starts on a line of its own even when the included file ends without a
    newline; the loop then goes on with the next line. *)
Theorem X12_include_plain_file (P : Platform) (include_dirs : list path)
    (fuel : nat) (f p : path) (content l : string) (ls : list string)
    (n : Z) (st : streams) :
  resolve P include_dirs f (classify l) = Some p ->
  ifstream_open P p = Some content ->
  Forall (fun x => is_plain x = true) (split_lines content) ->
  process_lines P include_dirs (ProcessInclude P include_dirs (S fuel))
                f (l :: ls) n st
  = process_lines P include_dirs (ProcessInclude P include_dirs (S fuel))
                  f ls (n + 1)
                  (write_output st (newline_terminated content)).
Proof.
  intros Hres Hopen Hplain.
  rewrite process_lines_directive_line
    by (eapply resolve_some_directive; eassumption).
  rewrite Hres, ProcessInclude_S, Hopen.
  rewrite process_lines_all_plain by exact Hplain.
  now rewrite unlines_split_lines.
Qed.

Lemma X12_include_plain_file_witness :
  resolve Fixture.shadow_platform Fixture.shadow_dirs "src/m.cpp"
          (classify (Fixture.include "plain.txt")) = Some "src/plain.txt" /\
  ifstream_open Fixture.shadow_platform "src/plain.txt"
  = Some ("one" ++ endl ++ "two") /\
  Forall (fun x => is_plain x = true) (split_lines ("one" ++ endl ++ "two")) /\
  process_lines Fixture.shadow_platform Fixture.shadow_dirs
    (ProcessInclude Fixture.shadow_platform Fixture.shadow_dirs 1)
    "src/m.cpp" [Fixture.include "plain.txt"; "next"] 0 Fixture.start
  = process_lines Fixture.shadow_platform Fixture.shadow_dirs
      (ProcessInclude Fixture.shadow_platform Fixture.shadow_dirs 1)
      "src/m.cpp" ["next"] (0 + 1)
      (write_output Fixture.start (newline_terminated ("one" ++ endl ++ "two"))).
Proof.
  assert (Hp : Forall (fun x => is_plain x = true)
                 (split_lines ("one" ++ endl ++ "two"))).
  { repeat constructor. }
  split; [reflexivity|]. split; [reflexivity|]. split; [exact Hp|].
  apply (X12_include_plain_file Fixture.shadow_platform Fixture.shadow_dirs 0
           "src/m.cpp" "src/plain.txt" ("one" ++ endl ++ "two"));
    [reflexivity | reflexivity | exact Hp].
Defined.

(** ** Line numbers *)

(** X13.  The line number of a diagnostic counts the lines of the file that
    holds the directive and nothing else: when the lines before an
    unresolvable directive expand, to however much text, the call fails with
    that text written and the diagnostic naming the position of the
    directive among the lines of its own file, counted from one. *)
Theorem X13_line_number_is_position (P : Platform) (include_dirs : list path)
    (f : path) (content o l : string) (pre rest : list string) :
  ifstream_open P f = Some content ->
  split_lines content = (pre ++ l :: rest)%list ->
  Expands P include_dirs f pre o ->
  is_plain l = false ->
  resolve P include_dirs f (classify l) = None ->
  exists k, forall fuel, (k <= fuel)%nat -> forall src ln st,
    ProcessInclude P include_dirs fuel f src ln st
    = Some (false,
            {| output := output st ++ o;
               cout := cout st ++
                 diagnostic (directive_name (classify l)) f
                            (Z.of_nat (length pre) + 1) |}).
Proof.
  intros Hopen Hsplit Hexp Hpl Hres.
  destruct (Expands_complete _ _ _ _ _ Hexp) as [k Hk].
  exists (S k). intros fuel Hle src ln st.
  destruct fuel as [|fuel]; [lia|].
  rewrite ProcessInclude_S, Hopen, Hsplit, process_lines_app.
  rewrite Hk by lia.
  rewrite process_lines_unresolved by assumption.
  reflexivity.
Qed.

Lemma X13_line_number_is_position_witness :
  ifstream_open Fixture.shadow_platform "src/m.cpp"
  = Some (unlines [Fixture.include "h.h"; "#include <h.h>";
                   "#include <only.h>"; "tail"]) /\
  exists k, forall fuel, (k <= fuel)%nat -> forall src ln st,
    ProcessInclude Fixture.shadow_platform Fixture.shadow_dirs fuel
                   "src/m.cpp" src ln st
    = Some (false,
            {| output := output st ++ unlines ["relative"; "searched"];
               cout := cout st ++
                 diagnostic (directive_name (classify "#include <only.h>"))
                            "src/m.cpp"
                            (Z.of_nat (length [Fixture.include "h.h";
                                               "#include <h.h>"]) + 1) |}).
Proof.
  split; [reflexivity|].
  apply (X13_line_number_is_position Fixture.shadow_platform
           Fixture.shadow_dirs "src/m.cpp"
           (unlines [Fixture.include "h.h"; "#include <h.h>";
                     "#include <only.h>"; "tail"])
           (unlines ["relative"; "searched"]) "#include <only.h>"
           [Fixture.include "h.h"; "#include <h.h>"] ["tail"]);
    try reflexivity.
  apply (Expands_include _ _ _ _ _ "src/h.h" (unlines ["relative"])
           (unlines ["relative"]) (unlines ["searched"]));
    [reflexivity | reflexivity | repeat constructor |].
  apply (Expands_include _ _ _ _ _ "inc2/h.h" (unlines ["searched"])
           (unlines ["searched"]) "");
    [reflexivity | reflexivity | repeat constructor | constructor].
Defined.

(** ** Lines written and read back *)

Lemma split_lines_line (l x : string) :
  occurs nl l = false ->
  split_lines (l ++ String nl x) = l :: split_lines x.
Proof.
  induction l as [|c l IH]; intros H.
  - reflexivity.
  - simpl in H. apply orb_false_elim in H as [Hc Hl].
    simpl. rewrite Hc, (IH Hl). reflexivity.
Qed.

(** X14.  The lines the loop reads never hold a newline, and lines without
    a newline, written each with its newline as the loop writes them, are
    read back by the loop as the same lines.  So the text the program writes
    for a directive-free input is reproduced unchanged when it is expanded
    again. *)
Theorem X14_lines_round_trip :
  (forall s, Forall (fun l => occurs nl l = false) (split_lines s)) /\
  (forall ls, Forall (fun l => occurs nl l = false) ls ->
              split_lines (unlines ls) = ls) /\
  (forall s, split_lines (unlines (split_lines s)) = split_lines s) /\
  (forall s, newline_terminated (newline_terminated s) = newline_terminated s).
Proof.
  assert (H1 : forall s, Forall (fun l => occurs nl l = false) (split_lines s)).
  { induction s as [|c s IH]; [constructor|].
    simpl. destruct (Ascii.eqb c nl) eqn:Ec.
    - now constructor.
    - destruct (split_lines s) as [|l ls].
      + constructor; [|constructor]. simpl. now rewrite Ec.
      + inversion IH as [|? ? Hl Hls]; subst.
        constructor; [|exact Hls]. simpl. now rewrite Ec. }
  assert (H2 : forall ls, Forall (fun l => occurs nl l = false) ls ->
                          split_lines (unlines ls) = ls).
  { induction 1 as [|l ls Hl _ IH]; [reflexivity|].
    simpl unlines. unfold endl. cbn [append].
    now rewrite (split_lines_line _ _ Hl), IH. }
  assert (H3 : forall s, split_lines (unlines (split_lines s)) = split_lines s).
  { intros s. apply H2, H1. }
  repeat split; try assumption.
  intros s. rewrite <- !unlines_split_lines. now rewrite H3.
Qed.

Lemma X14_lines_round_trip_witness :
  Forall (fun l => occurs nl l = false) ["one"; ""; "two"] /\
  split_lines (unlines ["one"; ""; "two"]) = ["one"; ""; "two"].
Proof.
  assert (H : Forall (fun l => occurs nl l = false) ["one"; ""; "two"]).
  { repeat constructor. }
  split; [exact H|].
  exact (proj1 (proj2 X14_lines_round_trip) ["one"; ""; "two"] H).
Defined.

(** ** Resolution *)

(** X15.  A directive resolves to nothing exactly when none of its
    candidates exists, and a path it resolves to is one of its candidates
    and exists.  An empty search list leaves a local directive its relative
    candidate only and a global directive none. *)
Theorem X15_resolution_outcome (P : Platform) (include_dirs : list path)
    (f : path) (d : Directive) :
  (resolve P include_dirs f d = None <->
   forall c, In c (candidates P include_dirs f d) -> fs_exists P c = false) /\
  (forall p, resolve P include_dirs f d = Some p ->
             In p (candidates P include_dirs f d) /\ fs_exists P p = true).
Proof.
  assert (E : resolve P include_dirs f d
              = find (fs_exists P) (candidates P include_dirs f d)).
  { destruct d as [name|name|x]; simpl.
    - unfold resolve_local, local_candidates, search_candidates. simpl.
      destruct (fs_exists P (path_append P (parent_path P f) name));
        [reflexivity | apply search_dirs_find].
    - apply search_dirs_find.
    - reflexivity. }
  rewrite E. split; [split|].
  - intros H c Hc. now apply (find_none _ _ H).
  - intros H.
    destruct (find (fs_exists P) (candidates P include_dirs f d)) as [p|] eqn:Ef;
      [|reflexivity].
    apply find_some in Ef as [Hin Hex]. rewrite (H _ Hin) in Hex. discriminate.
  - intros p H. now apply find_some in H.
Qed.

Lemma X15_resolution_outcome_witness :
  resolve Fixture.shadow_platform Fixture.shadow_dirs "other/m.cpp"
          (Local "h.h") = Some "inc2/h.h" /\
  In "inc2/h.h" (candidates Fixture.shadow_platform Fixture.shadow_dirs
                            "other/m.cpp" (Local "h.h")) /\
  fs_exists Fixture.shadow_platform "inc2/h.h" = true.
Proof.
  split; [reflexivity|].
  apply (X15_resolution_outcome Fixture.shadow_platform Fixture.shadow_dirs
           "other/m.cpp" (Local "h.h")).
  reflexivity.
Defined.

(** ** The output ends with a newline *)

Lemma ends_with_nl_app (a b : string) :
  b <> "" -> ends_with_nl (a ++ b) = ends_with_nl b.
Proof.
  intros Hb. induction a as [|c a IH]; [reflexivity|].
  change (ends_with_nl (String c a ++ b))
    with (match a ++ b with
          | EmptyString => Ascii.eqb c nl
          | String _ _ => ends_with_nl (a ++ b)
          end).
  destruct (a ++ b) eqn:E; [|exact IH].
  destruct a; [simpl in E; contradiction | discriminate].
Qed.

Lemma nl_closed_app (a b : string) :
  nl_closed a = true -> nl_closed b = true -> nl_closed (a ++ b) = true.
Proof.
  intros Ha Hb. destruct b as [|c b]; [now rewrite append_nil_r|].
  destruct a as [|d a]; [exact Hb|].
  change (nl_closed (String d a ++ String c b))
    with (ends_with_nl (String d a ++ String c b)).
  now rewrite ends_with_nl_app.
Qed.

Lemma nl_closed_line (l o : string) :
  nl_closed o = true -> nl_closed (l ++ endl ++ o) = true.
Proof.
  intros Ho. rewrite <- append_assoc. apply nl_closed_app; [|exact Ho].
  destruct l as [|c l]; [reflexivity|].
  change (nl_closed (String c l ++ endl))
    with (ends_with_nl (String c l ++ endl)).
  now rewrite ends_with_nl_app.
Qed.

Lemma Expands_nl_closed (P : Platform) (include_dirs : list path) f lines o :
  Expands P include_dirs f lines o -> nl_closed o = true.
Proof.
  induction 1; [reflexivity | now apply nl_closed_line | now apply nl_closed_app].
Qed.

Lemma Fails_nl_closed (P : Platform) (include_dirs : list path)
    f lines n o name file line :
  Fails P include_dirs f lines n o name file line -> nl_closed o = true.
Proof.
  induction 1; try reflexivity; try assumption.
  - now apply nl_closed_line.
  - apply nl_closed_app; [|assumption].
    eapply Expands_nl_closed; eassumption.
Qed.

(** X16.  The output is written in whole lines: a call that finds the output
    empty or ending with a newline leaves it so, whether it succeeds or
    fails, and the output file of a run in which both files opened is empty
    or ends with a newline. *)
Theorem X16_output_in_whole_lines (P : Platform) (include_dirs : list path)
    (fuel : nat) :
  (forall f src ln st b st',
     ProcessInclude P include_dirs fuel f src ln st = Some (b, st') ->
     nl_closed (output st) = true ->
     nl_closed (output st') = true) /\
  (forall input_file output_file content w b w',
     ifstream_open P input_file = Some content ->
     ofstream_open P output_file = true ->
     Preprocess P include_dirs fuel input_file output_file w = Some (b, w') ->
     exists o, out_file w' = Some o /\ nl_closed o = true).
Proof.
  assert (H : forall f src ln st b st',
     ProcessInclude P include_dirs fuel f src ln st = Some (b, st') ->
     nl_closed (output st) = true ->
     nl_closed (output st') = true).
  { intros f src ln st b st' Hrun Hst.
    pose proof (ProcessInclude_sound P include_dirs fuel _ _ _ _ _ _ Hrun) as Hs.
    destruct (ifstream_open P f) as [content|].
    - destruct b.
      + destruct Hs as (o & Ho & ->). simpl.
        apply nl_closed_app; [exact Hst|].
        eapply Expands_nl_closed; eassumption.
      + destruct Hs as (o & name & file & line & HF & -> & _).
        apply nl_closed_app; [exact Hst|].
        eapply Fails_nl_closed; eassumption.
    - destruct Hs as [_ ->]. now destruct (path_empty src). }
  split; [exact H|].
  intros input_file output_file content w b w' Hin Hout Hrun.
  unfold Preprocess in Hrun. rewrite Hin, Hout in Hrun.
  destruct (ProcessInclude P include_dirs fuel input_file "" 0
              {| output := ""; cout := console w |})
    as [[b1 st']|] eqn:E; [|discriminate].
  injection Hrun as -> <-. exists (output st'). split; [reflexivity|].
  now apply (H _ _ _ _ _ _ E).
Qed.

Lemma X16_output_in_whole_lines_witness :
  ifstream_open Fixture.test_platform "sources/a.cpp" = Some Fixture.a_cpp /\
  ofstream_open Fixture.test_platform "sources/a.in" = true /\
  exists o, Some Fixture.test_out = Some o /\ nl_closed o = true.
Proof.
  split; [reflexivity|]. split; [reflexivity|].
  apply (proj2 (X16_output_in_whole_lines Fixture.test_platform
                  Fixture.test_include_dirs 4)
           "sources/a.cpp" "sources/a.in" Fixture.a_cpp Fixture.fresh false
           {| out_file := Some Fixture.test_out;
              console := "unknown include file dummy.txt at file sources/a.cpp at line 8" ++ endl |});
    [reflexivity | reflexivity | vm_compute; reflexivity].
Defined.

(** ** Where a diagnostic points *)

Section Location.

Variable P : Platform.
Variable include_dirs : list path.

Lemma Fails_location f lines n o name file line :
  Fails P include_dirs f lines n o name file line ->
  0 <= n ->
  (file = f /\ n < line /\
   exists l, nth_error lines (Z.to_nat (line - n - 1)) = Some l /\
             failing_directive P include_dirs file l name) \/
  (exists c l,
     ifstream_open P file = Some c /\ 1 <= line /\
     nth_error (split_lines c) (Z.to_nat (line - 1)) = Some l /\
     failing_directive P include_dirs file l name).
Proof.
  induction 1 as
    [ f l ls n Hpl Hres
    | f l ls n p Hres Hopen
    | f l ls n p content o name file line Hres Hopen _ IH
    | f l ls n o name file line Hpl _ IH
    | f l ls n p content o1 o2 name file line Hres Hopen Hexp _ IH ];
    intros Hn.
  - left. split; [reflexivity|]. split; [lia|].
    exists l. replace (n + 1 - n - 1) with 0 by lia.
    split; [reflexivity|]. split; [exact Hpl|]. now left.
  - left. split; [reflexivity|]. split; [lia|].
    exists l. replace (n + 1 - n - 1) with 0 by lia.
    split; [reflexivity|].
    split; [eapply resolve_some_directive; eassumption|].
    right. now exists p.
  - right. destruct (IH ltac:(lia)) as [(-> & Hlt & l' & Hnth & Hfd)|Hr];
      [|exact Hr].
    exists content, l'. replace (line - 1) with (line - 0 - 1) by lia.
    split; [exact Hopen|]. split; [lia|]. now split.
  - destruct (IH ltac:(lia)) as [(-> & Hlt & l' & Hnth & Hfd)|Hr];
      [left | now right].
    split; [reflexivity|]. split; [lia|]. exists l'.
    replace (Z.to_nat (line - n - 1)) with (S (Z.to_nat (line - (n + 1) - 1)))
      by lia.
    now split.
  - destruct (IH ltac:(lia)) as [(-> & Hlt & l' & Hnth & Hfd)|Hr];
      [left | now right].
    split; [reflexivity|]. split; [lia|]. exists l'.
    replace (Z.to_nat (line - n - 1)) with (S (Z.to_nat (line - (n + 1) - 1)))
      by lia.
    now split.
Qed.

End Location.

(** X17.  The diagnostic of a failed expansion points at a real place: the
    file it names was opened during the run, the line number lies within
    that file, counted from one, and the line there is a directive that
    resolves to nothing, under the name printed, or resolves to a path that
    cannot be opened, under the base name of that path. *)
Theorem X17_diagnostic_points_at_directive (P : Platform)
    (include_dirs : list path) (fuel : nat) (input_file output_file : path)
    (content : string) (w w' : world) :
  ifstream_open P "" = None ->
  ifstream_open P input_file = Some content ->
  ofstream_open P output_file = true ->
  Preprocess P include_dirs fuel input_file output_file w = Some (false, w') ->
  exists name file line c l,
    console w' = console w ++ diagnostic name file line /\
    ifstream_open P file = Some c /\
    1 <= line /\
    nth_error (split_lines c) (Z.to_nat (line - 1)) = Some l /\
    failing_directive P include_dirs file l name.
Proof.
  intros He Hin Hout H.
  unfold Preprocess in H. rewrite Hin, Hout in H.
  destruct (ProcessInclude P include_dirs fuel input_file "" 0
              {| output := ""; cout := console w |})
    as [[b st']|] eqn:Hrun; [|discriminate].
  injection H as -> <-.
  pose proof (ProcessInclude_sound P include_dirs fuel _ _ _ _ _ _ Hrun) as Hs.
  rewrite Hin in Hs.
  destruct Hs as (o & name & file & line & HF & _ & Hcout).
  specialize (Hcout He). simpl in Hcout.
  apply Fails_location in HF; [|lia].
  destruct HF as [(-> & Hlt & l & Hnth & Hfd)|(c & l & Hopen & Hle & Hnth & Hfd)].
  - exists name, input_file, line, content, l.
    replace (line - 1) with (line - 0 - 1) by lia.
    split; [exact Hcout|]. split; [exact Hin|]. split; [lia|]. now split.
  - exists name, file, line, c, l.
    split; [exact Hcout|]. split; [exact Hopen|]. split; [exact Hle|].
    now split.
Qed.

Lemma X17_diagnostic_points_at_directive_witness :
  ifstream_open Fixture.deep_platform "" = None /\
  ifstream_open Fixture.deep_platform "p/a.cpp"
  = Some (unlines ["a1"; Fixture.include "b.h"; "a3"]) /\
  ofstream_open Fixture.deep_platform "p/a.out" = true /\
  exists name file line c l,
    "unknown include file nowhere.h at file inc/c.h at line 1" ++ endl
    = console Fixture.fresh ++ diagnostic name file line /\
    ifstream_open Fixture.deep_platform file = Some c /\
    1 <= line /\
    nth_error (split_lines c) (Z.to_nat (line - 1)) = Some l /\
    failing_directive Fixture.deep_platform ["inc"] file l name.
Proof.
  split; [reflexivity|]. split; [reflexivity|]. split; [reflexivity|].
  apply (X17_diagnostic_points_at_directive Fixture.deep_platform ["inc"] 3
           "p/a.cpp" "p/a.out" (unlines ["a1"; Fixture.include "b.h"; "a3"])
           Fixture.fresh
           {| out_file := Some (unlines ["a1"; "b1"; "b2"]);
              console := "unknown include file nowhere.h at file inc/c.h at line 1" ++ endl |});
    [reflexivity | reflexivity | reflexivity | vm_compute; reflexivity].
Defined.

(** ** Failures are computed, and are the only outcome *)

(** X18.  Every failure that [Fails] describes is what the program does:
    with a recursion deep enough the call returns failure, having written
    exactly that text and printed exactly that diagnostic.  A file whose
    lines expand therefore has no failure, and the text and the diagnostic
    of a failure are determined by the file. *)
Theorem X18_failure_is_computed (P : Platform) (include_dirs : list path)
    (f : path) (content o name : string) (file : path) (line : Z) :
  ifstream_open P "" = None ->
  ifstream_open P f = Some content ->
  Fails P include_dirs f (split_lines content) 0 o name file line ->
  (exists k, forall fuel, (k <= fuel)%nat -> forall src ln st,
     ProcessInclude P include_dirs fuel f src ln st
     = Some (false, {| output := output st ++ o;
                       cout := cout st ++ diagnostic name file line |})) /\
  (forall o', ~ Expands P include_dirs f (split_lines content) o') /\
  (forall o' name' file' line',
     Fails P include_dirs f (split_lines content) 0 o' name' file' line' ->
     o' = o /\ diagnostic name' file' line' = diagnostic name file line).
Proof.
  intros He Hopen HF.
  assert (Hrun : forall o1 n1 f1 l1,
    Fails P include_dirs f (split_lines content) 0 o1 n1 f1 l1 ->
    exists k, forall fuel, (k <= fuel)%nat -> forall src ln st,
      ProcessInclude P include_dirs fuel f src ln st
      = Some (false, {| output := output st ++ o1;
                        cout := cout st ++ diagnostic n1 f1 l1 |})).
  { intros o1 n1 f1 l1 H1.
    destruct (Fails_complete P include_dirs _ _ _ _ _ _ _ H1 He
                (open_nonempty P _ _ He Hopen)) as [k Hk].
    exists (S k). intros fuel Hle src ln st.
    destruct fuel as [|fuel]; [lia|].
    rewrite ProcessInclude_S, Hopen. apply Hk. lia. }
  destruct (Hrun _ _ _ _ HF) as [k Hk].
  split; [now exists k|]. split.
  - intros o' Hexp.
    destruct (Expands_complete _ _ _ _ _ Hexp) as [k' Hk'].
    specialize (Hk (S (Nat.max k k')) ltac:(lia) "" 0 Fixture.start).
    rewrite ProcessInclude_S, Hopen, Hk' in Hk by lia. discriminate.
  - intros o' name' file' line' HF'.
    destruct (Hrun _ _ _ _ HF') as [k' Hk'].
    specialize (Hk (Nat.max k k') ltac:(lia) "" 0
                  {| output := ""; cout := "" |}).
    specialize (Hk' (Nat.max k k') ltac:(lia) "" 0
                   {| output := ""; cout := "" |}).
    rewrite Hk in Hk'.
    assert (E1 := f_equal (fun r => match r with
                                    | Some (_, s) => output s
                                    | None => EmptyString
                                    end) Hk').
    assert (E2 := f_equal (fun r => match r with
                                    | Some (_, s) => cout s
                                    | None => EmptyString
                                    end) Hk').
    cbn [output cout append] in E1, E2. now split.
Qed.

Lemma X18_failure_is_computed_witness :
  ifstream_open Fixture.shadow_platform "" = None /\
  ifstream_open Fixture.shadow_platform "src/m.cpp"
  = Some (unlines [Fixture.include "h.h"; "#include <h.h>";
                   "#include <only.h>"; "tail"]) /\
  Fails Fixture.shadow_platform Fixture.shadow_dirs "src/m.cpp"
        (split_lines (unlines [Fixture.include "h.h"; "#include <h.h>";
                               "#include <only.h>"; "tail"]))
        0 (unlines ["relative"; "searched"]) "only.h" "src/m.cpp" 3 /\
  exists k, forall fuel, (k <= fuel)%nat -> forall src ln st,
    ProcessInclude Fixture.shadow_platform Fixture.shadow_dirs fuel
                   "src/m.cpp" src ln st
    = Some (false, {| output := output st ++ unlines ["relative"; "searched"];
                      cout := cout st ++ diagnostic "only.h" "src/m.cpp" 3 |}).
Proof.
  assert (HF :
    Fails Fixture.shadow_platform Fixture.shadow_dirs "src/m.cpp"
          (split_lines (unlines [Fixture.include "h.h"; "#include <h.h>";
                                 "#include <only.h>"; "tail"]))
          0 (unlines ["relative"; "searched"]) "only.h" "src/m.cpp" 3).
  { apply (Fails_after_include _ _ _ _ _ _ "src/h.h" (unlines ["relative"])
             (unlines ["relative"]) (unlines ["searched"]));
      [reflexivity | reflexivity | repeat constructor |].
    apply (Fails_after_include _ _ _ _ _ _ "inc2/h.h" (unlines ["searched"])
             (unlines ["searched"]) "");
      [reflexivity | reflexivity | repeat constructor |].
    apply (Fails_unresolved Fixture.shadow_platform Fixture.shadow_dirs
             "src/m.cpp" "#include <only.h>" ["tail"] (0 + 1 + 1));
      reflexivity. }
  split; [reflexivity|]. split; [reflexivity|]. split; [exact HF|].
  exact (proj1 (X18_failure_is_computed Fixture.shadow_platform
                  Fixture.shadow_dirs "src/m.cpp" _ _ _ _ _
                  eq_refl eq_refl HF)).
Defined.
